(** * WorldHappiness: the data pipeline and view state of the map page

    A shallow embedding of the page script in its revision with the
    period comparison and the event list: name reconciliation and the
    join of the two sources in [loadData], the per-country index [byISO],
    the year lookup of [showCountryPanel], the aggregates ([factorMax],
    the period means of [drawCovidComparison]), the event list, and the
    two input handlers that mutate the view state.

    Conventions of the embedding.
    - A JavaScript string is its sequence of UTF-16 code units.
    - Years and ranks are integers ([Z]), as [+d.Year] and [+d.Rank] give
      them for the integer cells of the file; ladder scores and factor
      values are exact rationals ([Q]) or [null] ([None]).  [parseComma]
      never yields [NaN], so no other number occurs in a row.
    - The dictionary [countryToISO3] of [isoMap.js] is a finite map from
      names to codes and a parameter of [loadData]; a missing name reads
      as [undefined].
    - What the script hands to d3 for drawing is kept as plain data: a
      fill is either the neutral colour or the colour scale applied to a
      rank, a panel is a record of the values it displays.  Scales, axes
      and tick selection are not modelled.
    - The d3 helpers the script calls ([d3.group], [d3.max], [d3.mean],
      [d3.ascending], [d3.descending]) and the built-ins ([trim],
      [replace], [sort], [find], [Map], [Object.entries]) are modelled
      after their documented behaviour. *)

From Stdlib Require Import ZArith QArith Lia Sorted.
From stdpp Require Import base option list strings gmap.

Close Scope Q_scope.
Local Open Scope Z_scope.

(** ** JavaScript values *)

Module JS.

(** A string as its UTF-16 code units. *)
Abbreviation jsstring := (list N).

(** [Boolean(s)] for a string: only the empty string is falsy. *)
Definition truthy_string (s : jsstring) : bool :=
  match s with [] => false | _ => true end.

(** [Boolean(v)] for [string | null | undefined]. *)
Definition truthy (v : option jsstring) : bool :=
  match v with Some s => truthy_string s | None => false end.

(** [a || b] on [string | null | undefined]. *)
Definition or_else (a b : option jsstring) : option jsstring :=
  if truthy a then a else b.

(** [Boolean(n)] for an integer number. *)
Definition truthy_Z (n : Z) : bool := negb (n =? 0).

(** [Boolean(q)] for a rational number. *)
Definition truthy_Q (q : Q) : bool := negb (Qeq_bool q 0).

(** WhiteSpace and LineTerminator code units, as [String.prototype.trim]
    strips them. *)
Definition is_space (c : N) : bool :=
  let in_range lo hi := (N.leb lo c && N.leb c hi)%bool in
  (in_range 9 13 || N.eqb c 32 || N.eqb c 160 || N.eqb c 5760
   || in_range 8192 8202 || in_range 8232 8233 || N.eqb c 8239
   || N.eqb c 8287 || N.eqb c 12288 || N.eqb c 65279)%N%bool.

Fixpoint trim_start (s : jsstring) : jsstring :=
  match s with
  | c :: t => if is_space c then trim_start t else s
  | [] => []
  end.

(** [s.trim()] *)
Definition trim (s : jsstring) : jsstring :=
  rev (trim_start (rev (trim_start s))).

Definition period : N := 46.
Definition apostrophe : N := 39.
Definition right_single_quote : N := 8217.

(** [s.replace(/\./g, '')] *)
Definition strip_periods (s : jsstring) : jsstring :=
  List.filter (fun c => negb (N.eqb c period)) s.

(** [s.replace(/[’']/g, "'")] *)
Definition straighten_apostrophes (s : jsstring) : jsstring :=
  map (fun c => if (N.eqb c right_single_quote || N.eqb c apostrophe)%bool
                then apostrophe else c) s.

(** Code units of an ASCII literal, for writing examples. *)
Fixpoint lit (s : String.string) : jsstring :=
  match s with
  | String.EmptyString => []
  | String.String a t => Ascii.N_of_ascii a :: lit t
  end.
Arguments lit s%_string.

(** [new Map(pairs)]: a later pair with the same key replaces an
    earlier one. *)
Definition Map_of {K V} `{Countable K} (pairs : list (K * V)) : gmap K V :=
  foldl (fun m p => <[p.1 := p.2]> m) ∅ pairs.

(** [arr.find(f)] *)
Definition find {A} (f : A -> bool) (l : list A) : option A := List.find f l.

(** [arr[arr.length - 1]] *)
Definition last_elem {A} (l : list A) : option A := last l.

(** [arr.slice().sort(cmp)] for a comparator [cmp]; [before a b] is
    [cmp(a, b) <= 0].  The built-in sort is stable, and so is this
    insertion sort: an element is placed in front of the first element
    of the sorted tail that it does not come after. *)
Section Sort.
Context {A : Type} (before : A -> A -> bool).

Fixpoint insert_sorted (a : A) (l : list A) : list A :=
  match l with
  | [] => [a]
  | b :: t => if before a b then a :: b :: t else b :: insert_sorted a t
  end.

Fixpoint sort (l : list A) : list A :=
  match l with
  | [] => []
  | a :: t => insert_sorted a (sort t)
  end.
End Sort.

(** [arr.slice().sort((a, b) => d3.ascending(key(a), key(b)))] *)
Definition sort_ascending {A} (key : A -> Z) : list A -> list A :=
  sort (fun a b => key a <=? key b).

(** [arr.sort((a, b) => d3.descending(key(a), key(b)))] *)
Definition sort_descending {A} (key : A -> Z) : list A -> list A :=
  sort (fun a b => key b <=? key a).

End JS.

Import JS.

(** ** d3 helpers *)

Module D3.

Definition Qlt_bool (x y : Q) : bool := negb (Qle_bool y x).

(** [d3.group(values, key)]: an insertion-ordered map from key to the
    array of the values with that key, in their order of appearance. *)
Definition group {A K} `{Countable K} (key : A -> K) (values : list A)
  : gmap K (list A) :=
  foldl (fun m a => <[key a := default [] (m !! key a) ++ [a]]> m) ∅ values.

(** One step of the loop of [d3.max(values, valueof)]: a [null] value
    is skipped, a value replaces the running maximum when it is larger
    or when there is none yet. *)
Definition max_step {A} (valueof : A -> option Q) (mx : option Q) (a : A)
  : option Q :=
  match valueof a with
  | None => mx
  | Some v =>
      match mx with
      | None => Some v
      | Some m => if Qlt_bool m v then Some v else Some m
      end
  end.

(** [d3.max(values, valueof)]; [undefined] when nothing was counted. *)
Definition max {A} (valueof : A -> option Q) (values : list A) : option Q :=
  foldl (max_step valueof) None values.

(** One step of the loop of [d3.mean(values, valueof)]: a [null] value
    is skipped, any other is counted and added. *)
Definition mean_step {A} (valueof : A -> option Q) (acc : Z * Q) (a : A)
  : Z * Q :=
  match valueof a with
  | None => acc
  | Some v => (acc.1 + 1, (acc.2 + v)%Q)
  end.

(** [d3.mean(values, valueof)]; [undefined] when nothing was counted. *)
Definition mean {A} (valueof : A -> option Q) (values : list A) : option Q :=
  let acc := foldl (mean_step valueof) (0, 0%Q) values in
  if acc.1 =? 0 then None else Some (acc.2 / inject_Z acc.1)%Q.

End D3.

(** ** Data model *)

(** The six factor keys of [factorKeys]. *)
Inductive FactorKey := gdp | social | healthy | freedom | generosity | corruption.

Definition factorKeys : list FactorKey :=
  [gdp; social; healthy; freedom; generosity; corruption].

(** A record of the delimited file as [d3.dsv] hands it to the row
    callback, with the numeric cells already read ([+d.Year], [+d.Rank],
    [parseComma]). *)
Record CsvRecord := {
  Country_namegive : option jsstring;
  Country_name : option jsstring;
  Country : option jsstring;
  Year : Z;
  Rank : Z;
  Ladder_score : option Q;
  Explained_by : FactorKey -> option Q
}.

(** A row object built by the row callback; [iso3] is assigned later. *)
Record Row := {
  country : option jsstring;
  year : Z;
  rank : Z;
  ladder : option Q;
  factor : FactorKey -> option Q;
  iso3 : option jsstring
}.

(** A polygon feature: [properties.name] and [properties.iso_a3]. *)
Record Feature := {
  name : option jsstring;
  iso_a3 : option jsstring
}.

(** [eventsData]: country code to the entries of its year object, as
    [Object.entries] lists them, the year key already converted ([+y]). *)
Definition EventYears := list (Z * list jsstring).

(** ** loadData *)

(** [d["Country namegive"] || d["Country name"] || d.Country] *)
Definition countryName (d : CsvRecord) : option jsstring :=
  or_else (or_else (Country_namegive d) (Country_name d)) (Country d).

(** The row callback of [d3.dsv]. *)
Definition parse_row (d : CsvRecord) : Row :=
  {| country := if truthy (countryName d) then trim <$> countryName d else None;
     year := Year d;
     rank := Rank d;
     ladder := Ladder_score d;
     factor := Explained_by d;
     iso3 := None |}.

Section Load.

(** The dictionary of [isoMap.js]. *)
Variable countryToISO3 : gmap jsstring jsstring.

(** [name.replace(/\./g,'').replace(/[’']/g,"'")] *)
Definition normalize (s : jsstring) : jsstring :=
  straighten_apostrophes (strip_periods s).

(** The code a feature gets:
    [name ? (countryToISO3[name] || countryToISO3[normalized]) : null],
    then [iso || null]. *)
Definition feature_iso (raw : option jsstring) : option jsstring :=
  let name := if truthy raw then trim <$> raw else None in
  let iso :=
    match name with
    | Some n =>
        if truthy_string n
        then or_else (countryToISO3 !! n) (countryToISO3 !! normalize n)
        else None
    | None => None
    end in
  or_else iso None.

(** The code a row gets:
    [d.country ? countryToISO3[d.country] || null : null]. *)
Definition row_iso (country : option jsstring) : option jsstring :=
  match country with
  | Some c =>
      if truthy_string c then or_else (countryToISO3 !! c) None else None
  | None => None
  end.

Definition tag_feature (f : Feature) : Feature :=
  {| name := name f; iso_a3 := feature_iso (name f) |}.

Definition tag_row (d : Row) : Row :=
  {| country := country d; year := year d; rank := rank d;
     ladder := ladder d; factor := factor d;
     iso3 := row_iso (country d) |}.

(** [new Set(world.features.map(f => f.properties.iso_a3).filter(Boolean))] *)
Definition geoISOSet (features : list Feature) : gset jsstring :=
  list_to_set (omap (fun f => if truthy (iso_a3 f) then iso_a3 f else None)
                    features).

(** [d => d.iso3 && geoISOSet.has(d.iso3)] *)
Definition retained (geo : gset jsstring) (d : Row) : bool :=
  match iso3 d with
  | Some c => truthy_string c && bool_decide (c ∈ geo)
  | None => false
  end.

(** [d3.max(filtered, d => d[f.key] ?? 0) || 1] *)
Definition factorMax (filtered : list Row) (k : FactorKey) : Q :=
  match D3.max (fun d => Some (default 0%Q (factor d k))) filtered with
  | Some m => if truthy_Q m then m else 1%Q
  | None => 1%Q
  end.

(** What [loadData] leaves behind: its result and the global [byISO]. *)
Record Loaded := {
  world : list Feature;
  filtered : list Row;
  loaded_byISO : gmap (option jsstring) (list Row);
  loaded_factorMax : FactorKey -> Q
}.

Definition loadData (csv : list CsvRecord) (geo : list Feature) : Loaded :=
  let happiness := tag_row <$> (parse_row <$> csv) in
  let world := tag_feature <$> geo in
  let kept := List.filter (retained (geoISOSet world)) happiness in
  {| world := world;
     filtered := kept;
     loaded_byISO := D3.group iso3 kept;
     loaded_factorMax := factorMax kept |}.

End Load.

(** ** Views *)

(** A fill colour: ["#1e293b"] or [colorScale(rank)]. *)
Inductive Fill := Neutral | Scale (r : Z).

Record FactorBar := { bar_key : FactorKey; bar_value : Q; bar_max : Q }.

Inductive Period := PreCovid | PostCovid.

(** The content of [#covidChart]: the "No data available" paragraph, or
    one bar per period that has a value. *)
Inductive CovidView := NoData | Chart (bars : list (Period * Q)).

(** One [div.event-block]: its year, whether it carries the class
    [active], and its texts, each with whether it carries [headline]. *)
Record EventBlock := {
  block_year : Z;
  block_active : bool;
  block_texts : list (jsstring * bool)
}.

(** The content of [#history]: the "Keine Ereignisse hinterlegt." note,
    or the event blocks. *)
Inductive HistoryView := NoEvents | Blocks (blocks : list EventBlock).

(** What the detail panel displays: the title, the ladder score of the
    shown row (empty when null or 0), the sorted series the sparkline is
    drawn from and the row its marker sits on, the six factor bars, the
    period comparison and the event list. *)
Record Panel := {
  title : option jsstring;
  ladderToday : option Q;
  trend : list Row;
  marker : Row;
  factors : list FactorBar;
  covid : CovidView;
  history : HistoryView
}.

(** A handler either runs to its end or throws a [TypeError]. *)
Inductive outcome (A : Type) := Ok (a : A) | TypeError.
Arguments Ok {A} a.
Arguments TypeError {A}.

#[global] Instance outcome_ret : MRet outcome := fun A a => Ok a.

#[global] Instance outcome_bind : MBind outcome := fun A B k o =>
  match o with Ok a => k a | TypeError => TypeError end.

(** *** The map *)

(** [new Map(happinessData.filter(d => d.year === year).map(d => [d.iso3, d.rank]))] *)
Definition yearData (happinessData : list Row) (y : Z)
  : gmap (option jsstring) Z :=
  Map_of ((fun d => (iso3 d, rank d))
            <$> List.filter (fun d => year d =? y) happinessData).

(** The [fill] attribute: [rank ? colorScale(rank) : "#1e293b"]. *)
Definition fill (yd : gmap (option jsstring) Z) (d : Feature) : Fill :=
  match yd !! iso_a3 d with
  | Some r => if truthy_Z r then Scale r else Neutral
  | None => Neutral
  end.

(** [drawMap(year)]: the fill of each feature's path, in feature order. *)
Definition drawMap (happinessData : list Row) (features : list Feature)
    (y : Z) : list Fill :=
  fill (yearData happinessData y) <$> features.

(** *** The year lookup *)

(** [rows.find(r => r.year === year)
     || rows.slice().reverse().find(r => r.year <= year)
     || rows[rows.length - 1]]; a row object is always truthy. *)
Definition pick_row (rows : list Row) (y : Z) : option Row :=
  match find (fun r => year r =? y) rows with
  | Some r => Some r
  | None =>
      match find (fun r => year r <=? y) (rev rows) with
      | Some r => Some r
      | None => last_elem rows
      end
  end.

(** *** The period comparison *)

Definition preYears (rows : list Row) : list Row :=
  List.filter (fun r => (2015 <=? year r) && (year r <=? 2019)) rows.

Definition postYears (rows : list Row) : list Row :=
  List.filter (fun r => 2020 <=? year r) rows.

(** [years.length ? d3.mean(years, r => r.ladder) : null] *)
Definition periodAverage (years : list Row) : option Q :=
  match years with
  | [] => None
  | _ => D3.mean ladder years
  end.

Definition preAvg (rows : list Row) : option Q := periodAverage (preYears rows).
Definition postAvg (rows : list Row) : option Q := periodAverage (postYears rows).

(** [drawCovidComparison(rows)] *)
Definition drawCovidComparison (rows : list Row) : CovidView :=
  match preAvg rows, postAvg rows with
  | None, None => NoData
  | pre, post =>
      Chart (omap (fun pv => (fun v => (pv.1, v)) <$> pv.2)
                  [(PreCovid, pre); (PostCovid, post)])
  end.

(** *** The event list *)

(** The entries of a country's year object, newest first. *)
Definition event_entries (obj : EventYears) : EventYears :=
  sort_descending fst obj.

(** [filtered.length ? filtered : entries] *)
Definition event_list (obj : EventYears) (activeYear : Z) : EventYears :=
  let entries := event_entries obj in
  match List.filter (fun e => e.1 <=? activeYear) entries with
  | [] => entries
  | shown => shown
  end.

(** The block appended for one entry. *)
Definition event_block (activeYear : Z) (e : Z * list jsstring) : EventBlock :=
  let isActive := e.1 =? activeYear in
  {| block_year := e.1;
     block_active := isActive;
     block_texts := imap (fun i txt => (txt, isActive && Nat.eqb i 0)) e.2 |}.

(** The history part of [showCountryPanel], for a truthy [iso3]. *)
Definition showHistory (eventsData : option (gmap jsstring EventYears))
    (iso3 : jsstring) (activeYear : Z) : HistoryView :=
  match eventsData ≫= (fun log => log !! iso3) with
  | Some obj => Blocks (event_block activeYear <$> event_list obj activeYear)
  | None => NoEvents
  end.

(** ** The page: loaded data, view state, handlers *)

(** The globals filled once by [initViz]. *)
Record Data := {
  worldData : list Feature;
  happinessData : list Row;
  byISO : gmap (option jsstring) (list Row);
  factorMaxByKey : FactorKey -> Q;
  eventsData : option (gmap jsstring EventYears)
}.

(** What changes afterwards: the slider's value (the selected year),
    the global [selectedISO], and what the page displays.  [panel] is
    [None] as long as the panel is as the page markup has it. *)
Record View := {
  sliderValue : Z;
  selectedISO : option jsstring;
  yearLabel : option Z;
  mapFill : list Fill;
  panel : option Panel
}.

(** [row && row.ladder ? d3.format(".2f")(row.ladder) : ""] *)
Definition ladder_text (row : Row) : option Q :=
  match ladder row with
  | Some v => if truthy_Q v then Some v else None
  | None => None
  end.

(** [{ key, value: row[f.key] ?? 0, max: factorMaxByKey[f.key] ?? 1 }];
    [factorMaxByKey] has every key once the data is loaded. *)
Definition factor_bar (D : Data) (row : Row) (k : FactorKey) : FactorBar :=
  {| bar_key := k;
     bar_value := default 0%Q (factor row k);
     bar_max := factorMaxByKey D k |}.

(** [showCountryPanel(iso3, displayName)] with the slider at [y]: the
    guard returns without touching the panel; otherwise every part of the
    panel is rebuilt.  Reading [row[f.key]] of an undefined [row] throws. *)
Definition showCountryPanel (D : Data) (y : Z) (iso3 displayName : option jsstring)
    (shown : option Panel) : outcome (option Panel) :=
  match iso3, byISO D !! iso3 with
  | Some c, Some group =>
      if truthy_string c then
        let rows := sort_ascending year group in
        match pick_row rows y with
        | Some row =>
            Ok (Some {| title := displayName;
                        ladderToday := ladder_text row;
                        trend := rows;
                        marker := row;
                        factors := factor_bar D row <$> factorKeys;
                        covid := drawCovidComparison rows;
                        history := showHistory (eventsData D) c y |})
        | None => TypeError
        end
      else Ok shown
  | _, _ => Ok shown
  end.

(** The two inputs accepted once the page is ready. *)
Inductive Trigger :=
| SliderInput (value : Z)
| Click (d : Feature).

(** The slider's [input] listener and a path's [click] listener. *)
Definition handle (D : Data) (t : Trigger) (v : View) : outcome View :=
  match t with
  | SliderInput y =>
      let fills := drawMap (happinessData D) (worldData D) y in
      p ← (if truthy (selectedISO v) then
             let f := find (fun f => bool_decide (iso_a3 f = selectedISO v))
                           (worldData D) in
             let displayName :=
               match f with Some f => name f | None => selectedISO v end in
             showCountryPanel D y (selectedISO v) displayName (panel v)
           else Ok (panel v));
      Ok {| sliderValue := y; selectedISO := selectedISO v;
            yearLabel := Some y; mapFill := fills; panel := p |}
  | Click d =>
      p ← showCountryPanel D (sliderValue v) (iso_a3 d) (name d) (panel v);
      Ok {| sliderValue := sliderValue v; selectedISO := iso_a3 d;
            yearLabel := yearLabel v; mapFill := mapFill v; panel := p |}
  end.

(** Triggers handled one after the other. *)
Fixpoint run (D : Data) (ts : list Trigger) (v : View) : outcome View :=
  match ts with
  | [] => Ok v
  | t :: ts => v' ← handle D t v; run D ts v'
  end.

(** [initViz]: the globals after [loadData], and the first drawing with
    the slider at [y0]; no country is selected, the panel is as the page
    markup has it. *)
Definition initData (dict : gmap jsstring jsstring) (csv : list CsvRecord)
    (geo : list Feature) (events : option (gmap jsstring EventYears)) : Data :=
  let L := loadData dict csv geo in
  {| worldData := world L;
     happinessData := filtered L;
     byISO := loaded_byISO L;
     factorMaxByKey := loaded_factorMax L;
     eventsData := events |}.

Definition initView (D : Data) (y0 : Z) : View :=
  {| sliderValue := y0; selectedISO := None; yearLabel := None;
     mapFill := drawMap (happinessData D) (worldData D) y0; panel := None |}.

(** * Specification-level definitions *)

(** ** TemporalIndex *)

(** The series of a code in the per-country index; a code that is not a
    key has the empty series. *)
Definition series (byISO : gmap (option jsstring) (list Row))
    (code : option jsstring) : list Row :=
  default [] (byISO !! code).

(** The observation shown for a code at a query year: the code's rows,
    sorted by year, then the chain of [showCountryPanel]. *)
Definition lookup (byISO : gmap (option jsstring) (list Row))
    (code : option jsstring) (queryYear : Z) : option Row :=
  pick_row (sort_ascending year (series byISO code)) queryYear.

(** ** AggregateComputer *)

Definition Qsum (vs : list Q) : Q := foldr Qplus 0%Q vs.

(** The ladder scores that qualify for a period, in the words of the
    specification: the year lies in the range and the score is not null. *)
Definition pre_scores (rows : list Row) : list Q :=
  omap ladder (filter (fun r => 2015 <= year r <= 2019) rows).

Definition post_scores (rows : list Row) : list Q :=
  omap ladder (filter (fun r => 2020 <= year r) rows).

(** The mean of the qualifying scores, nothing when there is none. *)
Definition mean_of (vs : list Q) : option Q :=
  match vs with
  | [] => None
  | _ => Some (Qsum vs / inject_Z (Z.of_nat (length vs)))%Q
  end.

(** The bars drawn for the two averages: none for a missing average. *)
Definition bars_of (pre post : option Q) : list (Period * Q) :=
  match pre with Some v => [(PreCovid, v)] | None => [] end
  ++ match post with Some v => [(PostCovid, v)] | None => [] end.

(** ** NameReconciler *)

(** Reconciliation in the words of the specification: trim, look up;
    on a miss normalize and look up again; else nothing. *)
Definition resolve (dict : gmap jsstring jsstring) (rawName : option jsstring)
  : option jsstring :=
  match rawName with
  | Some raw =>
      match dict !! trim raw with
      | Some code => Some code
      | None => dict !! normalize (trim raw)
      end
  | None => None
  end.

(** The same without the second look-up. *)
Definition resolve_once (dict : gmap jsstring jsstring) (rawName : option jsstring)
  : option jsstring :=
  match rawName with
  | Some raw => dict !! trim raw
  | None => None
  end.

(** A dictionary of non-empty names and non-empty codes. *)
Definition proper (dict : gmap jsstring jsstring) : Prop :=
  dict !! [] = None /\ forall n code, dict !! n = Some code -> code <> [].

(** ** ViewState *)

(** The fill of a feature, from the rows of exactly the drawn year: the
    last such row with the feature's code decides. *)
Definition exact_year_fill (rows : list Row) (y : Z) (f : Feature) : Fill :=
  match last (filter (fun d => year d = y /\ iso3 d = iso_a3 f) rows) with
  | Some d => if rank d =? 0 then Neutral else Scale (rank d)
  | None => Neutral
  end.

(** The index has no empty group. *)
Definition grouped (D : Data) : Prop :=
  forall k g, byISO D !! k = Some g -> g <> [].

(** The map is drawn for the slider's year. *)
Definition map_current (D : Data) (v : View) : Prop :=
  mapFill v = drawMap (happinessData D) (worldData D) (sliderValue v).

(** * Sample data *)

Definition FRA : jsstring := lit "FRA".
Definition DEU : jsstring := lit "DEU".
Definition COD : jsstring := lit "COD".

(** A retained row of country [code]. *)
Definition observation (code : jsstring) (y r : Z) (score : option Q) : Row :=
  {| country := Some code; year := y; rank := r; ladder := score;
     factor := fun _ => None; iso3 := Some code |}.

(** A country observed in 2015, 2017 and 2020, in the order of the file. *)
Definition fra_rows : list Row :=
  [observation FRA 2017 31 (Some 6.4%Q);
   observation FRA 2015 29 (Some 6.5%Q);
   observation FRA 2020 23 (Some 6.6%Q)].

Definition fra_index : gmap (option jsstring) (list Row) := D3.group iso3 fra_rows.

(** A retained row with one value for [gdp]. *)
Definition with_gdp (v : option Q) : Row :=
  {| country := Some FRA; year := 2020; rank := 1; ladder := None;
     factor := fun k => match k with gdp => v | _ => None end;
     iso3 := Some FRA |}.

(** Five years before 2020 with the scores 1 to 5, and none after. *)
Definition pre_only_rows : list Row :=
  [observation FRA 2015 1 (Some 1%Q); observation FRA 2016 1 (Some 2%Q);
   observation FRA 2017 1 (Some 3%Q); observation FRA 2018 1 (Some 4%Q);
   observation FRA 2019 1 (Some 5%Q)].

(** A log that lists a country with an empty year object: [{"DEU": {}}]. *)
Definition empty_object_log : gmap jsstring EventYears := {[ DEU := [] ]}.

(** A log with events in 2010, 2015 and 2020. *)
Definition deu_log : gmap jsstring EventYears :=
  {[ DEU := [(2010, [lit "a"]); (2015, [lit "b"; lit "c"]); (2020, [lit "d"])] ]}.

(** A dictionary that knows the Congo without the periods, and a feature
    and a record that both spell it with them. *)
Definition congo_dict : gmap jsstring jsstring := {[ lit "Dem Rep Congo" := COD ]}.

Definition congo_feature : Feature :=
  {| name := Some (lit " Dem. Rep. Congo"); iso_a3 := None |}.

Definition congo_record : CsvRecord :=
  {| Country_namegive := None; Country_name := Some (lit "Dem. Rep. Congo");
     Country := None; Year := 2020; Rank := 120; Ladder_score := Some 4.3%Q;
     Explained_by := fun _ => None |}.

(** A small page: France has one row, of 2015; Germany is on the map and
    in the dictionary but has no row. *)
Definition two_names : gmap jsstring jsstring :=
  <[ lit "Germany" := DEU ]> {[ lit "France" := FRA ]}.

Definition france_2015 : CsvRecord :=
  {| Country_namegive := None; Country_name := Some (lit "France");
     Country := None; Year := 2015; Rank := 29; Ladder_score := Some 6.5%Q;
     Explained_by := fun _ => None |}.

Definition france : Feature := {| name := Some (lit "France"); iso_a3 := Some FRA |}.
Definition germany : Feature := {| name := Some (lit "Germany"); iso_a3 := Some DEU |}.

Definition small_page : Data :=
  initData two_names [france_2015]
    [{| name := Some (lit "France"); iso_a3 := None |};
     {| name := Some (lit "Germany"); iso_a3 := None |}] None.

(** * Further parts of the script *)

(** ** More helpers *)

(** [arr.filter((x, i) => keep(i))], the index counted from [i]. *)
Fixpoint filter_index {A} (keep : nat -> bool) (i : nat) (l : list A) : list A :=
  match l with
  | [] => []
  | x :: t =>
      if keep i then x :: filter_index keep (S i) t
      else filter_index keep (S i) t
  end.


(** One step of the loop of [d3.extent(values, valueof)] on integers. *)
Definition extent_step {A} (valueof : A -> option Z) (acc : option (Z * Z))
    (a : A) : option (Z * Z) :=
  match valueof a with
  | None => acc
  | Some v =>
      match acc with
      | None => Some (v, v)
      | Some (mn, mx) => Some (if v <? mn then v else mn, if mx <? v then v else mx)
      end
  end.

(** [d3.extent(values, valueof)]: the smallest and the largest value, or
    nothing ([[undefined, undefined]]) when no value was counted. *)
Definition extent {A} (valueof : A -> option Z) (values : list A)
  : option (Z * Z) :=
  foldl (extent_step valueof) None values.

(** ** parseComma *)

(** [s.replace(",", ".")]: a string pattern replaces the first
    occurrence only. *)
Fixpoint replace_first_comma (s : jsstring) : jsstring :=
  match s with
  | [] => []
  | c :: t => if N.eqb c 44 then 46%N :: t else c :: replace_first_comma t
  end.

(** [s.replace(/\s/g, "")]; [\s] is the class that [trim] strips. *)
Definition strip_spaces (s : jsstring) : jsstring :=
  List.filter (fun c => negb (is_space c)) s.

(** The string [parseComma] hands to [parseFloat]. *)
Definition comma_to_point (v : jsstring) : jsstring :=
  strip_spaces (replace_first_comma v).

Section ParseComma.

(** [parseFloat], with [NaN] as [None]. *)
Variable parseFloat : jsstring -> option Q.

(** [parseComma(v)] for a cell that is a string, [undefined] or [null]. *)
Definition parseComma (v : option jsstring) : option Q :=
  match v with
  | None | Some [] => None
  | Some s => parseFloat (comma_to_point s)
  end.

End ParseComma.

(** ** The sparkline and the factor bars of the panel *)

(** [d3.extent(rows, d => d.year)], the domain of the x scale. *)
Definition sparkline_domain (rows : list Row) : option (Z * Z) :=
  extent (fun d => Some (year d)) rows.

(** [rows.filter(d => d.ladder != null)], the points of the line. *)
Definition sparkline_line (rows : list Row) : list Row :=
  List.filter (fun d => bool_decide (is_Some (ladder d))) rows.

(** [Math.ceil(n / 6)] *)
Definition tick_step (n : nat) : nat := ((n + 5) / 6)%nat.

(** [years.length > 6
       ? years.filter((_, i) => i % Math.ceil(years.length / 6) === 0)
       : years] *)
Definition sparkline_ticks (rows : list Row) : list Z :=
  let years := year <$> rows in
  if (6 <? length years)%nat
  then filter_index (fun i => (i mod tick_step (length years) =? 0)%nat) 0 years
  else years.

(** The width of a bar in percent: [(d.value / (d.max || 1)) * 100]. *)
Definition bar_width (b : FactorBar) : Q :=
  (bar_value b / (if truthy_Q (bar_max b) then bar_max b else 1) * 100)%Q.

(** ** Lazy start *)

(** The flag [initialized], whether the observer is still connected, and
    how often [loadData] has been called. *)
Record Boot := {
  initialized : bool;
  observing : bool;
  loadsStarted : nat
}.

(** [initViz()]: returns at once when the flag is set, else sets it and
    calls [loadData]. *)
Definition initViz (b : Boot) : Boot :=
  if initialized b then b
  else {| initialized := true; observing := observing b;
          loadsStarted := S (loadsStarted b) |}.

(** [io.disconnect()] *)
Definition disconnect (b : Boot) : Boot :=
  {| initialized := initialized b; observing := false;
     loadsStarted := loadsStarted b |}.

(** The observer's callback for one batch of entries, each entry given
    by its [isIntersecting]; a disconnected observer is not called. *)
Definition intersect (entries : list bool) (b : Boot) : Boot :=
  if observing b
  then foldl (fun (b : Boot) (e : bool) => if e then disconnect (initViz b) else b)
             b entries
  else b.

(** The page before its section was ever visible. *)
Definition boot0 : Boot :=
  {| initialized := false; observing := true; loadsStarted := 0 |}.

(** ** The first revision of loadData *)

Module Legacy.

(** [name ? (countryToISO3[name] || countryToISO3[normalized] || null) : null] *)
Definition feature_iso (countryToISO3 : gmap jsstring jsstring)
    (name : option jsstring) : option jsstring :=
  match name with
  | Some n =>
      if truthy_string n
      then or_else (or_else (countryToISO3 !! n) (countryToISO3 !! normalize n)) None
      else None
  | None => None
  end.

(** [feature.properties.name ? feature.properties.name.trim() : null] *)
Definition trimmed_name (f : Feature) : option jsstring :=
  if truthy (name f) then trim <$> name f else None.

(** The loop body over the features: a feature with a code is tagged, a
    feature without one keeps the [iso_a3] it came with. *)
Definition tag_feature (countryToISO3 : gmap jsstring jsstring) (f : Feature)
  : Feature :=
  let iso := feature_iso countryToISO3 (trimmed_name f) in
  if truthy iso then {| name := name f; iso_a3 := iso |} else f.


(** [happiness.filter(d => !d.iso3).map(d => d.country).filter(Boolean)] *)
Definition missingCSV (happiness : list Row) : list jsstring :=
  omap (fun c => if truthy c then c else None)
       (country <$> List.filter (fun d => negb (truthy (iso3 d))) happiness).


(** [loadData] without its logging: the retained rows and the tagged
    features. *)
Definition loadData (countryToISO3 : gmap jsstring jsstring)
    (rows : list Row) (geo : list Feature) : list Row * list Feature :=
  let happiness := tag_row countryToISO3 <$> rows in
  let world := tag_feature countryToISO3 <$> geo in
  (List.filter (retained (geoISOSet world)) happiness, world).

End Legacy.

(** The two states of the lazy start: not started and still observing,
    or started once and disconnected. *)
Definition booted (b : Boot) : Prop :=
  (initialized b = false /\ observing b = true /\ loadsStarted b = 0%nat) \/
  (initialized b = true /\ observing b = false /\ loadsStarted b = 1%nat).

(** ** More sample data *)

(** A second row for France and 2015, later in the file, of rank 30. *)
Definition france_2015_again : CsvRecord :=
  {| Country_namegive := None; Country_name := Some (lit "France");
     Country := None; Year := 2015; Rank := 30; Ladder_score := Some 6.4%Q;
     Explained_by := fun _ => None |}.

Definition twice_2015 : Data :=
  initData two_names [france_2015; france_2015_again]
    [{| name := Some (lit "France"); iso_a3 := None |}] None.

(** * Properties *)

(** ** The stable sort *)

Section SortFacts.
Context {A : Type} (before : A -> A -> bool).

Lemma insert_sorted_perm a l : insert_sorted before a l ≡ₚ a :: l.
Proof.
  induction l as [|b t IH]; simpl; [done|].
  destruct (before a b); [done|].
  rewrite IH. apply Permutation_swap.
Qed.

Lemma sort_perm l : sort before l ≡ₚ l.
Proof.
  induction l as [|a t IH]; simpl; [done|].
  by rewrite insert_sorted_perm, IH.
Qed.

Lemma sort_elem_of x l : x ∈ sort before l <-> x ∈ l.
Proof. by rewrite sort_perm. Qed.

Lemma sort_nil_inv l : sort before l = [] -> l = [].
Proof.
  intros E. apply Permutation_nil_r. by rewrite <- E, sort_perm.
Qed.

(** Stability: elements that the comparator does not separate keep
    their relative order.  [P] selects such a class of elements. *)
Lemma filter_insert_sorted (P : A -> bool) a l :
  (forall b, P a = true -> P b = true -> before a b = true) ->
  List.filter P (insert_sorted before a l) = List.filter P (a :: l).
Proof.
  intros HP. induction l as [|b t IH]; [done|].
  simpl insert_sorted. destruct (before a b) eqn:Hab; [done|].
  simpl in *. rewrite IH.
  destruct (P a) eqn:Ha, (P b) eqn:Hb; try done.
  rewrite HP in Hab; done.
Qed.

Lemma filter_sort (P : A -> bool) l :
  (forall a b, P a = true -> P b = true -> before a b = true) ->
  List.filter P (sort before l) = List.filter P l.
Proof.
  intros HP. induction l as [|a t IH]; [done|].
  simpl sort. rewrite filter_insert_sorted by auto.
  simpl. by rewrite IH.
Qed.

Hypothesis before_total : forall a b, before a b = false -> before b a = true.
Hypothesis before_trans :
  forall a b c, before a b = true -> before b c = true -> before a c = true.

Lemma insert_sorted_sorted a l :
  StronglySorted (fun x y => before x y = true) l ->
  StronglySorted (fun x y => before x y = true) (insert_sorted before a l).
Proof.
  induction 1 as [|b t Hs IH Hb]; simpl.
  - repeat constructor.
  - destruct (before a b) eqn:Hab.
    + constructor; [by constructor|].
      constructor; [done|].
      eapply Forall_impl; [exact Hb|]. intros c Hc. simpl in Hc. eauto.
    + constructor; [done|].
      rewrite insert_sorted_perm. constructor; auto.
Qed.

Lemma sort_sorted l : StronglySorted (fun x y => before x y = true) (sort before l).
Proof.
  induction l; simpl; [constructor | by apply insert_sorted_sorted].
Qed.
End SortFacts.

Lemma find_head_filter {A} (f : A -> bool) l : find f l = head (List.filter f l).
Proof.
  unfold find. induction l as [|a t IH]; simpl; [done|].
  by destruct (f a).
Qed.

Lemma StronglySorted_weaken {A} (R S : A -> A -> Prop) l :
  (forall a b, R a b -> S a b) -> StronglySorted R l -> StronglySorted S l.
Proof.
  intros HRS. induction 1 as [|a t Hs IH Ha]; constructor; [done|].
  eapply Forall_impl; [exact Ha|]. intros b Hb. by apply HRS.
Qed.

Section KeyedSort.
Context {A : Type} (key : A -> Z).

Lemma sort_ascending_perm l : sort_ascending key l ≡ₚ l.
Proof. apply sort_perm. Qed.

Lemma sort_ascending_sorted l :
  StronglySorted (fun a b => key a <= key b) (sort_ascending key l).
Proof.
  eapply StronglySorted_weaken;
    [|apply (sort_sorted (fun a b => key a <=? key b))].
  - intros a b Hab. simpl in Hab. lia.
  - intros a b Hab. lia.
  - intros a b c. lia.
Qed.

Lemma sort_descending_sorted l :
  StronglySorted (fun a b => key b <= key a) (sort_descending key l).
Proof.
  eapply StronglySorted_weaken;
    [|apply (sort_sorted (fun a b => key b <=? key a))].
  - intros a b Hab. simpl in Hab. lia.
  - intros a b Hab. lia.
  - intros a b c. lia.
Qed.

(** The first element with a given key is the same before and after
    sorting. *)
Lemma find_key_sort_ascending k l :
  find (fun a => key a =? k) (sort_ascending key l)
  = find (fun a => key a =? k) l.
Proof.
  rewrite !find_head_filter. unfold sort_ascending.
  rewrite filter_sort; [done|]. intros a b Ha Hb. lia.
Qed.
End KeyedSort.

(** ** Searching a list from either end *)

Lemma find_none_iff {A} (f : A -> bool) l :
  find f l = None <-> forall x, x ∈ l -> f x = false.
Proof.
  unfold find. split.
  - intros H x Hx. apply (find_none f l H). by apply list_elem_of_In.
  - induction l as [|a t IH]; intros H; simpl; [done|].
    rewrite (H a) by left. apply IH. intros x Hx. apply H. by right.
Qed.

Lemma find_some_elem {A} (f : A -> bool) l r :
  find f l = Some r -> r ∈ l /\ f r = true.
Proof.
  intros H. destruct (find_some f l H) as [Hin Hf].
  split; [by apply list_elem_of_In | done].
Qed.

(** Searching the reversed list finds the last match. *)
Lemma find_rev_some {A} (f : A -> bool) l r :
  find f (rev l) = Some r ->
  exists l1 l2, l = l1 ++ r :: l2 /\ f r = true /\ Forall (fun x => f x = false) l2.
Proof.
  unfold find. induction l as [|a t IH] using rev_ind; [done|].
  rewrite rev_app_distr. simpl. destruct (f a) eqn:Ha.
  - intros [= ->]. exists t, []. by repeat split.
  - intros H. destruct (IH H) as (l1 & l2 & -> & Hr & Hl2).
    exists l1, (l2 ++ [a]). split; [by rewrite <- app_assoc|].
    split; [done|]. apply Forall_app. split; [done|]. by constructor.
Qed.

Lemma elem_of_rev {A} (x : A) l : x ∈ rev l <-> x ∈ l.
Proof. rewrite !list_elem_of_In. symmetry. apply in_rev. Qed.

Lemma StronglySorted_before {A} (R : A -> A -> Prop) l1 x l2 :
  StronglySorted R (l1 ++ x :: l2) -> Forall (fun a => R a x) l1.
Proof.
  induction l1 as [|a t IH]; simpl; [constructor|].
  intros H. apply StronglySorted_inv in H as [Hs Ha].
  constructor; [|by apply IH].
  rewrite Forall_forall in Ha. apply Ha. set_solver.
Qed.

(** ** The year lookup (C2, C3, C10) *)

Section PickRow.
Variable s : list Row.
Variable q : Z.
Local Abbreviation rows := (sort_ascending year s).

Lemma rows_elem_of r : r ∈ rows <-> r ∈ s.
Proof. apply sort_elem_of. Qed.

Lemma pick_row_exact r :
  find (fun r => year r =? q) s = Some r -> pick_row rows q = Some r.
Proof.
  intros H. unfold pick_row. by rewrite find_key_sort_ascending, H.
Qed.

Lemma pick_row_no_exact :
  (forall r, r ∈ s -> year r <> q) ->
  pick_row rows q =
    match find (fun r => year r <=? q) (rev rows) with
    | Some r => Some r
    | None => last_elem rows
    end.
Proof.
  intros H. unfold pick_row.
  replace (find (fun r => year r =? q) rows) with (@None Row); [done|].
  symmetry. apply find_none_iff. intros r Hr.
  apply rows_elem_of, H in Hr. lia.
Qed.

Lemma pick_row_previous :
  (forall r, r ∈ s -> year r <> q) ->
  (exists r, r ∈ s /\ year r < q) ->
  exists r, pick_row rows q = Some r /\ r ∈ s /\ year r < q /\
            forall r', r' ∈ s -> year r' < q -> year r' <= year r.
Proof.
  intros Hne (r0 & Hr0 & Hlt). rewrite pick_row_no_exact by done.
  destruct (find _ (rev rows)) as [r|] eqn:Hf.
  - exists r. split; [done|].
    destruct (find_rev_some _ _ _ Hf) as (l1 & l2 & Hrows & Hr & Hl2).
    assert (r ∈ s) as Hrs.
    { apply rows_elem_of. rewrite Hrows. set_solver. }
    split; [done|]. split; [specialize (Hne r Hrs); lia|].
    intros r' Hr' Hlt'. apply rows_elem_of in Hr'. rewrite Hrows in Hr'.
    pose proof (sort_ascending_sorted year s) as Hs.
    rewrite Hrows in Hs.
    apply elem_of_app in Hr' as [Hr'|Hr'].
    + apply StronglySorted_before in Hs. rewrite Forall_forall in Hs.
      by apply Hs.
    + apply elem_of_cons in Hr' as [->|Hr']; [lia|].
      rewrite Forall_forall in Hl2.
      apply Hl2 in Hr'. lia.
  - exfalso. rewrite find_none_iff in Hf.
    assert (r0 ∈ rev rows) as Hin by (by apply elem_of_rev, rows_elem_of).
    apply Hf in Hin. lia.
Qed.

Lemma pick_row_fallback :
  (forall r, r ∈ s -> q < year r) -> s <> [] ->
  exists r, pick_row rows q = Some r /\ r ∈ s /\
            forall r', r' ∈ s -> year r' <= year r.
Proof.
  intros Hgt Hs. rewrite pick_row_no_exact
    by (intros r Hr; specialize (Hgt r Hr); lia).
  replace (find _ (rev rows)) with (@None Row).
  2:{ symmetry. apply find_none_iff. intros r Hr.
      apply elem_of_rev, rows_elem_of, Hgt in Hr. lia. }
  unfold last_elem. destruct (last rows) as [r|] eqn:Hl.
  - exists r. split; [done|]. apply last_Some in Hl as [l' Hl].
    split; [apply rows_elem_of; rewrite Hl; set_solver|].
    intros r' Hr'. apply rows_elem_of in Hr'.
    pose proof (sort_ascending_sorted year s) as Hsorted.
    rewrite Hl in Hsorted, Hr'.
    apply elem_of_app in Hr' as [Hr'|Hr'].
    + apply StronglySorted_before in Hsorted. rewrite Forall_forall in Hsorted.
      by apply Hsorted.
    + apply list_elem_of_singleton in Hr' as ->. lia.
  - apply last_None in Hl. by apply sort_nil_inv in Hl.
Qed.

Lemma pick_row_none : pick_row rows q = None <-> s = [].
Proof.
  split.
  - unfold pick_row. destruct (find _ rows); [done|].
    destruct (find _ (rev rows)); [done|].
    unfold last_elem. intros Hl. apply last_None in Hl.
    by apply sort_nil_inv in Hl.
  - intros E. by rewrite E.
Qed.

End PickRow.

Lemma find_exists {A} (f : A -> bool) l :
  (exists x, x ∈ l /\ f x = true) -> exists r, find f l = Some r.
Proof.
  intros (x & Hx & Hfx). destruct (find f l) as [r|] eqn:Hf; [by exists r|].
  rewrite find_none_iff in Hf. rewrite Hf in Hfx; done.
Qed.

(** ** Grouping *)

Lemma group_snoc {A K} `{Countable K} (key : A -> K) l a :
  D3.group key (l ++ [a])
  = <[key a := default [] (D3.group key l !! key a) ++ [a]]> (D3.group key l).
Proof. unfold D3.group. by rewrite foldl_app. Qed.

(** A group holds the values with its key, in their order of appearance;
    a key without values has no group. *)
Lemma group_lookup {A K} `{Countable K} (key : A -> K) l k :
  D3.group key l !! k
  = match filter (fun a => key a = k) l with [] => None | g => Some g end.
Proof.
  induction l as [|a l IH] using rev_ind; [done|].
  rewrite group_snoc, filter_app, lookup_insert.
  destruct (decide (key a = k)) as [Heq|Hne].
  - rewrite Heq, IH, (filter_cons_True _ a) by done. rewrite filter_nil.
    by destruct (filter _ l).
  - rewrite IH, (filter_cons_False _ a) by done.
    by rewrite filter_nil, app_nil_r.
Qed.

Lemma group_nonempty {A K} `{Countable K} (key : A -> K) l k g :
  D3.group key l !! k = Some g -> g <> [].
Proof.
  rewrite group_lookup. destruct (filter _ l) eqn:E; [done|].
  by intros [= <-].
Qed.

(** ** C2 *)

(** C2: for a code with a non-empty series, [lookup] returns the first
    observation of the query year when there is one (first in the sorted
    series, which is also the first in file order); otherwise the
    observation with the largest year below the query year; otherwise,
    the query year preceding every year of the series, the observation
    with the largest year of the series.  [lookup] returns nothing
    exactly when the series is empty. *)
Theorem lookup_policy (byISO : gmap (option jsstring) (list Row))
    (code : option jsstring) (q : Z) :
  let s := series byISO code in
  (lookup byISO code q = None <-> s = []) /\
  (s <> [] ->
   ((exists r0, r0 ∈ s /\ year r0 = q) ->
    exists r, lookup byISO code q = Some r /\ year r = q /\
              find (fun r => year r =? q) (sort_ascending year s) = Some r /\
              find (fun r => year r =? q) s = Some r) /\
   ((forall r, r ∈ s -> year r <> q) -> (exists r0, r0 ∈ s /\ year r0 < q) ->
    exists r, lookup byISO code q = Some r /\ r ∈ s /\ year r < q /\
              forall r', r' ∈ s -> year r' < q -> year r' <= year r) /\
   ((forall r, r ∈ s -> q < year r) ->
    exists r, lookup byISO code q = Some r /\ r ∈ s /\
              forall r', r' ∈ s -> year r' <= year r)).
Proof.
  intros s. unfold lookup. fold s. split; [apply pick_row_none|].
  intros Hs. split; [|split].
  - intros (r0 & Hr0 & Hy).
    destruct (find_exists (fun r => year r =? q) s) as [r Hr].
    { exists r0. split; [done|lia]. }
    exists r. split; [by apply pick_row_exact|].
    destruct (find_some_elem _ _ _ Hr) as [_ Hyr].
    split; [lia|]. split; [|done]. by rewrite find_key_sort_ascending.
  - apply pick_row_previous.
  - intros Hgt. by apply pick_row_fallback.
Qed.

Lemma lookup_policy_witness :
  fra_rows <> [] /\
  exists r, lookup fra_index (Some FRA) 2016 = Some r /\ year r = 2015.
Proof.
  split; [done|].
  destruct (lookup_policy fra_index (Some FRA) 2016) as [_ H].
  destruct H as (_ & H & _); [by vm_compute|].
  destruct H as (r & Hr & Hin & Hlt & Hmax).
  - intros r Hr. vm_compute in Hr.
    repeat (apply elem_of_cons in Hr as [->|Hr]; [by vm_compute|]).
    by apply elem_of_nil in Hr.
  - exists (observation FRA 2015 29 (Some 6.5%Q)).
    split; [vm_compute; set_solver | by vm_compute].
  - exists r. split; [done|].
    vm_compute in Hin.
    repeat (apply elem_of_cons in Hin as [->|Hin];
            [first [done | by vm_compute in Hlt]|]).
    by apply elem_of_nil in Hin.
Defined.

(** ** C3 *)

(** The second case of C3 fails: before every recorded year the chain
    ends in the last row of the sorted series, the 2020 observation. *)
Lemma lookup_2014_is_not_2015 :
  year <$> sort_ascending year (series fra_index (Some FRA)) = [2015; 2017; 2020] /\
  lookup fra_index (Some FRA) 2014 = Some (observation FRA 2020 23 (Some 6.6%Q)) /\
  ~ (exists r, lookup fra_index (Some FRA) 2014 = Some r /\ year r = 2015).
Proof.
  assert (lookup fra_index (Some FRA) 2014
          = Some (observation FRA 2020 23 (Some 6.6%Q))) as E by (by vm_compute).
  split; [by vm_compute|]. split; [done|].
  intros (r & Hr & Hy). rewrite E in Hr.
  assert (r = observation FRA 2020 23 (Some 6.6%Q)) as Er by congruence.
  rewrite Er in Hy. done.
Qed.

Section Years_2015_2017_2020.
Variable byISO : gmap (option jsstring) (list Row).
Variable code : option jsstring.
Hypothesis years : year <$> series byISO code ≡ₚ [2015; 2017; 2020].

Local Abbreviation s := (series byISO code).

Lemma years_cases r : r ∈ s -> year r = 2015 \/ year r = 2017 \/ year r = 2020.
Proof.
  intros Hr. apply (list_elem_of_fmap_2 year) in Hr. rewrite years in Hr.
  rewrite !elem_of_cons, elem_of_nil in Hr. tauto.
Qed.

Lemma years_present y : y ∈ [2015; 2017; 2020] -> exists r, r ∈ s /\ year r = y.
Proof.
  rewrite <- years. intros Hy. apply list_elem_of_fmap_1 in Hy as (r & -> & Hr).
  by exists r.
Qed.

Lemma years_nonempty : s <> [].
Proof.
  intros E. destruct (years_present 2015) as (r & Hr & _); [set_solver|].
  rewrite E in Hr. by apply elem_of_nil in Hr.
Qed.

Lemma years_lookup_below y q :
  y ∈ [2015; 2017; 2020] -> y < q -> q <> 2015 -> q <> 2017 -> q <> 2020 ->
  (forall y', y' ∈ [2015; 2017; 2020] -> y' < q -> y' <= y) ->
  exists r, lookup byISO code q = Some r /\ r ∈ s /\ year r = y.
Proof.
  intros Hy Hlt H15 H17 H20 Hmax.
  destruct (years_present y Hy) as (r0 & Hr0 & Hy0).
  destruct (pick_row_previous s q) as (r & Hr & Hin & Hrq & Hbest).
  - intros r Hr. destruct (years_cases r Hr) as [?|[?|?]]; lia.
  - exists r0. split; [done|lia].
  - exists r. split; [done|]. split; [done|].
    specialize (Hbest r0 Hr0 ltac:(lia)).
    assert (year r ∈ [2015; 2017; 2020]) as Hyr.
    { rewrite !elem_of_cons. pose proof (years_cases r Hin). tauto. }
    specialize (Hmax (year r) Hyr Hrq). lia.
Qed.

End Years_2015_2017_2020.

(** C3 (amended): for a country observed exactly in 2015, 2017 and 2020,
    [lookup] at 2016 returns the 2015 observation, at 2020 the 2020
    observation, at 2025 the 2020 observation, and at 2014, a year before
    all data, the 2020 observation: the last row of the sorted series. *)
Theorem lookup_2015_2017_2020 (byISO : gmap (option jsstring) (list Row))
    (code : option jsstring) :
  year <$> series byISO code ≡ₚ [2015; 2017; 2020] ->
  (exists r, lookup byISO code 2016 = Some r /\ r ∈ series byISO code /\ year r = 2015) /\
  (exists r, lookup byISO code 2014 = Some r /\ r ∈ series byISO code /\ year r = 2020) /\
  (exists r, lookup byISO code 2020 = Some r /\ r ∈ series byISO code /\ year r = 2020) /\
  (exists r, lookup byISO code 2025 = Some r /\ r ∈ series byISO code /\ year r = 2020).
Proof.
  intros years.
  assert (forall y', y' ∈ [2015; 2017; 2020] -> y' = 2015 \/ y' = 2017 \/ y' = 2020)
    as Hcases.
  { intros y'. rewrite !elem_of_cons, elem_of_nil. tauto. }
  split; [|split; [|split]].
  - apply years_lookup_below; try done; [set_solver|].
    intros y' Hy' ?. destruct (Hcases y' Hy') as [?|[?|?]]; lia.
  - destruct (pick_row_fallback (series byISO code) 2014) as (r & Hr & Hin & Hmax).
    + intros r Hr. destruct (years_cases _ _ years r Hr) as [?|[?|?]]; lia.
    + by apply years_nonempty.
    + exists r. split; [done|]. split; [done|].
      destruct (years_present _ _ years 2020) as (r0 & Hr0 & Hy0); [set_solver|].
      specialize (Hmax r0 Hr0).
      destruct (years_cases _ _ years r Hin) as [?|[?|?]]; lia.
  - destruct (years_present _ _ years 2020) as (r0 & Hr0 & Hy0); [set_solver|].
    destruct (find_exists (fun r => year r =? 2020) (series byISO code))
      as [r Hf].
    { exists r0. split; [done|lia]. }
    exists r. split; [by apply pick_row_exact|].
    destruct (find_some_elem _ _ _ Hf) as [Hin Hy]. split; [done|lia].
  - apply years_lookup_below; try done; [set_solver|].
    intros y' Hy' ?. destruct (Hcases y' Hy') as [?|[?|?]]; lia.
Qed.

Lemma lookup_2015_2017_2020_witness :
  exists r, lookup fra_index (Some FRA) 2014 = Some r /\ year r = 2020.
Proof.
  destruct (lookup_2015_2017_2020 fra_index (Some FRA)) as (_ & H & _).
  - vm_compute. apply Permutation_swap.
  - destruct H as (r & Hr & _ & Hy). by exists r.
Defined.

(** ** C10 *)

Lemma pick_row_elem rows q r : pick_row rows q = Some r -> r ∈ rows.
Proof.
  unfold pick_row. destruct (find _ rows) as [r1|] eqn:H1.
  { intros [= <-]. by apply find_some_elem in H1 as [? _]. }
  destruct (find _ (rev rows)) as [r2|] eqn:H2.
  { intros [= <-]. apply find_some_elem in H2 as [? _]. by apply elem_of_rev. }
  unfold last_elem. intros Hl. apply last_Some in Hl as [l' ->].
  apply elem_of_app. right. by apply list_elem_of_singleton.
Qed.

Lemma group_elem {A K} `{Countable K} (key : A -> K) l k g a :
  D3.group key l !! k = Some g -> a ∈ g -> a ∈ l /\ key a = k.
Proof.
  rewrite group_lookup. intros Hg Ha.
  assert (g = filter (fun a => key a = k) l) as ->
    by (destruct (filter _ l); congruence).
  apply list_elem_of_filter in Ha. tauto.
Qed.

Lemma showCountryPanel_runs D y iso3 displayName shown :
  (forall g, byISO D !! iso3 = Some g -> g <> []) ->
  showCountryPanel D y iso3 displayName shown <> TypeError.
Proof.
  intros Hg. unfold showCountryPanel.
  destruct iso3 as [c|]; [|done].
  destruct (byISO D !! Some c) as [g|] eqn:E; [|done].
  destruct (truthy_string c); [|done].
  destruct (pick_row _ y) eqn:Hp; [done|].
  apply pick_row_none in Hp. by apply Hg in Hp.
Qed.

(** C10: grouping the retained rows never makes an empty group, so when
    the selected code is a key of the grouping its series is non-empty,
    the last element of the sorted series exists, the lookup chain yields
    one of the country's retained rows at every year, and building the
    panel never reads a field of a missing row. *)
Theorem guard_passed_row_exists (kept : list Row) (code : option jsstring) (q : Z) :
  is_Some (D3.group iso3 kept !! code) ->
  (forall k g, D3.group iso3 kept !! k = Some g -> g <> []) /\
  series (D3.group iso3 kept) code <> [] /\
  (exists r, last_elem (sort_ascending year (series (D3.group iso3 kept) code)) = Some r) /\
  (exists r, lookup (D3.group iso3 kept) code q = Some r /\ r ∈ kept /\ iso3 r = code) /\
  (forall D displayName shown,
      byISO D = D3.group iso3 kept ->
      showCountryPanel D q code displayName shown <> TypeError).
Proof.
  intros [g Hg].
  assert (forall k g, D3.group iso3 kept !! k = Some g -> g <> []) as Hgroups
    by (intros k g'; apply group_nonempty).
  assert (series (D3.group iso3 kept) code = g) as Hs
    by (unfold series; by rewrite Hg).
  split; [done|]. split; [rewrite Hs; eauto|]. split; [|split].
  - destruct (last_elem _) as [r|] eqn:Hl; [by exists r|].
    unfold last_elem in Hl. apply last_None, sort_nil_inv in Hl.
    rewrite Hs in Hl. by apply Hgroups in Hg.
  - unfold lookup. rewrite Hs.
    destruct (pick_row _ q) as [r|] eqn:Hp.
    + exists r. split; [done|].
      apply pick_row_elem, sort_elem_of in Hp.
      by apply (group_elem iso3 kept code g).
    + apply pick_row_none in Hp. by apply Hgroups in Hg.
  - intros D displayName shown HD. apply showCountryPanel_runs.
    rewrite HD. apply Hgroups.
Qed.

Lemma guard_passed_row_exists_witness :
  exists r, lookup (D3.group iso3 fra_rows) (Some FRA) 2014 = Some r /\ r ∈ fra_rows.
Proof.
  destruct (guard_passed_row_exists fra_rows (Some FRA) 2014)
    as (_ & _ & _ & (r & Hr & Hin & _) & _).
  - eexists. vm_compute. reflexivity.
  - by exists r.
Defined.

(** ** d3.max and the factor maxima (C4) *)

Lemma Qlt_bool_true x y : D3.Qlt_bool x y = true -> (x < y)%Q.
Proof.
  unfold D3.Qlt_bool. intros H. apply Qnot_le_lt. intros Hle.
  apply Qle_bool_iff in Hle. rewrite Hle in H. done.
Qed.

Lemma Qlt_bool_false x y : D3.Qlt_bool x y = false -> (y <= x)%Q.
Proof.
  unfold D3.Qlt_bool. intros H. apply Qle_bool_iff.
  by destruct (Qle_bool y x).
Qed.

Section MaxFacts.
Context {A : Type} (valueof : A -> option Q).

Lemma max_snoc l a :
  D3.max valueof (l ++ [a]) = D3.max_step valueof (D3.max valueof l) a.
Proof. unfold D3.max. by rewrite foldl_app. Qed.

(** [d3.max] returns one of the counted values, no smaller than any
    other; it returns nothing when every value is [null]. *)
Lemma max_spec l :
  match D3.max valueof l with
  | Some m => (exists a, a ∈ l /\ valueof a = Some m) /\
              (forall a v, a ∈ l -> valueof a = Some v -> (v <= m)%Q)
  | None => forall a, a ∈ l -> valueof a = None
  end.
Proof.
  induction l as [|a l IH] using rev_ind.
  { cbn. intros a Ha. by apply elem_of_nil in Ha. }
  rewrite max_snoc. unfold D3.max_step.
  destruct (valueof a) as [v|] eqn:Hv.
  - destruct (D3.max valueof l) as [m|].
    + destruct IH as [(a0 & Ha0 & Hm) Hle].
      destruct (D3.Qlt_bool m v) eqn:Hlt.
      * apply Qlt_bool_true in Hlt. split.
        { exists a. split; [|done]. apply elem_of_app. right. by left. }
        intros a' v' Ha' Hv'. apply elem_of_app in Ha' as [Ha'|Ha'].
        -- apply Qle_trans with m; [by eapply Hle | by apply Qlt_le_weak].
        -- apply list_elem_of_singleton in Ha' as ->.
           rewrite Hv in Hv'. injection Hv' as <-. apply Qle_refl.
      * apply Qlt_bool_false in Hlt. split.
        { exists a0. split; [|done]. apply elem_of_app. by left. }
        intros a' v' Ha' Hv'. apply elem_of_app in Ha' as [Ha'|Ha'].
        -- by eapply Hle.
        -- apply list_elem_of_singleton in Ha' as ->.
           rewrite Hv in Hv'. by injection Hv' as <-.
    + split.
      { exists a. split; [|done]. apply elem_of_app. right. by left. }
      intros a' v' Ha' Hv'. apply elem_of_app in Ha' as [Ha'|Ha'].
      * rewrite (IH a' Ha') in Hv'. done.
      * apply list_elem_of_singleton in Ha' as ->.
        rewrite Hv in Hv'. injection Hv' as <-. apply Qle_refl.
  - destruct (D3.max valueof l) as [m|].
    + destruct IH as [(a0 & Ha0 & Hm) Hle]. split.
      { exists a0. split; [|done]. apply elem_of_app. by left. }
      intros a' v' Ha' Hv'. apply elem_of_app in Ha' as [Ha'|Ha'].
      * by eapply Hle.
      * apply list_elem_of_singleton in Ha' as ->. congruence.
    + intros a' Ha'. apply elem_of_app in Ha' as [Ha'|Ha'].
      * by apply IH.
      * by apply list_elem_of_singleton in Ha' as ->.
Qed.
End MaxFacts.

(** The maximum of a key's values with [null] counted as 0, and what
    [factorMax] makes of it. *)
Lemma factorMax_null_as_zero (rows : list Row) (k : FactorKey) :
  rows <> [] ->
  exists M, (exists d, d ∈ rows /\ default 0%Q (factor d k) = M) /\
            (forall d, d ∈ rows -> (default 0%Q (factor d k) <= M)%Q) /\
            factorMax rows k = if Qeq_bool M 0 then 1%Q else M.
Proof.
  intros Hne. unfold factorMax.
  pose proof (max_spec (fun d => Some (default 0%Q (factor d k))) rows) as H.
  destruct (D3.max _ rows) as [m|].
  - destruct H as [(d & Hd & Hm) Hle]. exists m. split; [|split].
    + exists d. split; [done|]. congruence.
    + intros d' Hd'. by eapply Hle.
    + unfold truthy_Q. by destruct (Qeq_bool m 0).
  - destruct rows as [|d rows]; [done|].
    specialize (H d ltac:(left)). done.
Qed.

(** C4 fails where [null] counted as 0 matters: with the values
    [-1] and [null] the largest non-null value is [-1], but the [null]
    enters the maximum as 0 and the result is the default 1; and a
    maximum of 0 is replaced by the default as well. *)
Lemma factorMax_counts_null_as_zero :
  D3.max (fun d => factor d gdp) [with_gdp (Some (-1)%Q); with_gdp None]
    = Some (-1)%Q /\
  factorMax [with_gdp (Some (-1)%Q); with_gdp None] gdp = 1%Q /\
  ~ (factorMax [with_gdp (Some (-1)%Q); with_gdp None] gdp == -1)%Q /\
  D3.max (fun d => factor d gdp) [with_gdp (Some 0%Q); with_gdp None] = Some 0%Q /\
  ~ (factorMax [with_gdp (Some 0%Q); with_gdp None] gdp == 0)%Q.
Proof. repeat split; by vm_compute. Qed.

(** C4 (amended): for each factor key, [factorMax] is the maximum of the
    key's values over the retained rows with a [null] value counted as
    0, replaced by the default 1 when that maximum is 0 or there is no
    row.  Hence it is 1 when every value is [null], and it is the
    maximum of the non-null values whenever one of them is positive. *)
Theorem factorMax_policy (rows : list Row) (k : FactorKey) :
  (rows = [] -> factorMax rows k = 1%Q) /\
  (rows <> [] ->
   exists M, (exists d, d ∈ rows /\ default 0%Q (factor d k) = M) /\
             (forall d, d ∈ rows -> (default 0%Q (factor d k) <= M)%Q) /\
             factorMax rows k = if Qeq_bool M 0 then 1%Q else M) /\
  ((forall d, d ∈ rows -> factor d k = None) -> factorMax rows k = 1%Q) /\
  ((exists d v, d ∈ rows /\ factor d k = Some v /\ (0 < v)%Q) ->
   (exists d, d ∈ rows /\ factor d k = Some (factorMax rows k)) /\
   (forall d v, d ∈ rows -> factor d k = Some v -> (v <= factorMax rows k)%Q)).
Proof.
  split; [by intros ->|]. split; [apply factorMax_null_as_zero|]. split.
  - intros Hnull. destruct rows as [|d0 rows']; [done|].
    destruct (factorMax_null_as_zero (d0 :: rows') k) as (M & (d & Hd & HM) & _ & ->);
      [done|].
    rewrite (Hnull d Hd) in HM. by rewrite <- HM.
  - intros (d0 & v0 & Hd0 & Hv0 & Hpos).
    destruct (factorMax_null_as_zero rows k) as (M & (d & Hd & HM) & Hle & ->).
    { intros ->. by apply elem_of_nil in Hd0. }
    assert (v0 <= M)%Q as Hv0M.
    { specialize (Hle d0 Hd0). by rewrite Hv0 in Hle. }
    assert (0 < M)%Q as HposM by (by eapply Qlt_le_trans).
    destruct (Qeq_bool M 0) eqn:E.
    { apply Qeq_bool_iff in E. rewrite E in HposM. by apply Qlt_irrefl in HposM. }
    split.
    + exists d. split; [done|]. destruct (factor d k) as [v|]; cbn in HM.
      * by rewrite HM.
      * rewrite <- HM in HposM. by apply Qlt_irrefl in HposM.
    + intros d' v' Hd' Hv'. specialize (Hle d' Hd'). by rewrite Hv' in Hle.
Qed.

Lemma factorMax_policy_witness :
  factorMax [with_gdp (Some 3%Q); with_gdp None; with_gdp (Some 7%Q)] gdp = 7%Q /\
  factorMax [with_gdp (Some 3%Q); with_gdp None; with_gdp (Some 7%Q)] social = 1%Q.
Proof.
  pose proof (factorMax_policy
                [with_gdp (Some 3%Q); with_gdp None; with_gdp (Some 7%Q)] gdp)
    as (_ & _ & _ & Hpos).
  pose proof (factorMax_policy
                [with_gdp (Some 3%Q); with_gdp None; with_gdp (Some 7%Q)] social)
    as (_ & _ & Hnull & _).
  split.
  - destruct Hpos as [(d & Hd & Hmax) _].
    { exists (with_gdp (Some 3%Q)), 3%Q. split; [by left|]. split; by vm_compute. }
    by vm_compute.
  - apply Hnull. intros d Hd.
    repeat (apply elem_of_cons in Hd as [->|Hd]; [done|]).
    by apply elem_of_nil in Hd.
Defined.

(** ** d3.mean and the period comparison (C6) *)

Section MeanFacts.
Context {A : Type} (valueof : A -> option Q).

Lemma mean_fold l c s :
  (foldl (D3.mean_step valueof) (c, s) l).1
    = c + Z.of_nat (length (omap valueof l)) /\
  ((foldl (D3.mean_step valueof) (c, s) l).2 == s + Qsum (omap valueof l))%Q.
Proof.
  revert c s. induction l as [|a l IH]; intros c s.
  - cbn. split; [lia | by rewrite Qplus_0_r].
  - change (foldl (D3.mean_step valueof) (c, s) (a :: l))
      with (foldl (D3.mean_step valueof) (D3.mean_step valueof (c, s) a) l).
    change (omap valueof (a :: l))
      with (match valueof a with Some v => v :: omap valueof l
                               | None => omap valueof l end).
    unfold D3.mean_step at 2 4. destruct (valueof a) as [v|]; cbn [fst snd].
    + destruct (IH (c + 1) (s + v)%Q) as [Hc Hs]. rewrite Hc, Hs.
      cbn [length Qsum foldr]. split; [lia | by rewrite Qplus_assoc].
    + apply IH.
Qed.

(** [d3.mean] skips [null] values: it returns nothing when no value is
    counted, else the sum of the counted values over their number. *)
Lemma mean_spec l :
  (D3.mean valueof l = None <-> omap valueof l = []) /\
  (forall m, D3.mean valueof l = Some m ->
     (m == Qsum (omap valueof l) / inject_Z (Z.of_nat (length (omap valueof l))))%Q).
Proof.
  unfold D3.mean. destruct (mean_fold l 0 0%Q) as [Hc Hs].
  rewrite Hc, Z.add_0_l. split.
  - destruct (omap valueof l) as [|v vs]; cbn [length]; [done|].
    destruct (Z.eqb_spec (Z.of_nat (S (length vs))) 0); [lia|done].
  - intros m. destruct (Z.eqb_spec (Z.of_nat (length (omap valueof l))) 0); [done|].
    intros [= <-]. by rewrite Hs, Qplus_0_l.
Qed.
End MeanFacts.

Lemma filter_bool_Prop {A} (f : A -> bool) (P : A -> Prop)
    `{forall x, Decision (P x)} l :
  (forall x, f x = true <-> P x) -> List.filter f l = filter P l.
Proof.
  intros Hf. induction l as [|a l IH]; [done|].
  cbn [List.filter]. destruct (f a) eqn:E.
  - rewrite filter_cons_True by (by apply Hf). by rewrite IH.
  - rewrite filter_cons_False; [done|]. rewrite <- Hf. congruence.
Qed.

Lemma periodAverage_spec years :
  (periodAverage years = None <-> omap ladder years = []) /\
  (forall m, periodAverage years = Some m ->
     exists m', mean_of (omap ladder years) = Some m' /\ (m == m')%Q).
Proof.
  destruct (mean_spec ladder years) as [Hnone Hsome].
  unfold periodAverage. destruct years as [|r years]; [done|].
  split; [done|]. intros m Hm. specialize (Hsome m Hm).
  unfold mean_of. destruct (omap ladder (r :: years)) eqn:E.
  - assert (D3.mean ladder (r :: years) = None) by (by apply Hnone).
    congruence.
  - eauto.
Qed.

Lemma preYears_spec rows : preYears rows = filter (fun r => 2015 <= year r <= 2019) rows.
Proof. apply filter_bool_Prop. intros r. lia. Qed.

Lemma postYears_spec rows : postYears rows = filter (fun r => 2020 <= year r) rows.
Proof. apply filter_bool_Prop. intros r. lia. Qed.

Lemma drawCovidComparison_eq rows :
  drawCovidComparison rows =
    match preAvg rows, postAvg rows with
    | None, None => NoData
    | pre, post => Chart (bars_of pre post)
    end.
Proof.
  unfold drawCovidComparison. by destruct (preAvg rows), (postAvg rows).
Qed.

Lemma bars_of_pre pre post :
  (exists v, (PreCovid, v) ∈ bars_of pre post) <-> is_Some pre.
Proof.
  unfold bars_of. split.
  - intros [v Hv]. destruct pre; [done|]. exfalso.
    destruct post; cbn in Hv; [|by apply elem_of_nil in Hv].
    by apply list_elem_of_singleton in Hv.
  - intros [v ->]. exists v. apply elem_of_app. left. by left.
Qed.

Lemma bars_of_post pre post :
  (exists v, (PostCovid, v) ∈ bars_of pre post) <-> is_Some post.
Proof.
  unfold bars_of. split.
  - intros [v Hv]. destruct post; [done|]. exfalso.
    destruct pre; cbn in Hv; [|by apply elem_of_nil in Hv].
    by apply list_elem_of_singleton in Hv.
  - intros [v ->]. exists v. apply elem_of_app. right. by left.
Qed.

(** C6: each period average is the mean of the ladder scores of the rows
    whose year lies in the period ([2015, 2019], or 2020 and later) and
    whose score is not null, and it is nothing exactly when no row
    qualifies.  The chart is replaced by the "no data" state exactly when
    both averages are nothing; otherwise a missing average gets no bar,
    so it is never drawn as zero. *)
Theorem period_averages (rows : list Row) :
  (preAvg rows = None <-> pre_scores rows = []) /\
  (postAvg rows = None <-> post_scores rows = []) /\
  (forall m, preAvg rows = Some m ->
     exists m', mean_of (pre_scores rows) = Some m' /\ (m == m')%Q) /\
  (forall m, postAvg rows = Some m ->
     exists m', mean_of (post_scores rows) = Some m' /\ (m == m')%Q) /\
  (drawCovidComparison rows = NoData <-> preAvg rows = None /\ postAvg rows = None) /\
  (forall bars, drawCovidComparison rows = Chart bars ->
     bars = bars_of (preAvg rows) (postAvg rows) /\
     ((exists v, (PreCovid, v) ∈ bars) <-> is_Some (preAvg rows)) /\
     ((exists v, (PostCovid, v) ∈ bars) <-> is_Some (postAvg rows))).
Proof.
  unfold pre_scores, post_scores.
  rewrite <- preYears_spec, <- postYears_spec.
  destruct (periodAverage_spec (preYears rows)) as [Hpre_none Hpre].
  destruct (periodAverage_spec (postYears rows)) as [Hpost_none Hpost].
  split; [done|]. split; [done|]. split; [done|]. split; [done|].
  rewrite drawCovidComparison_eq. split.
  - destruct (preAvg rows), (postAvg rows); split; try done; by intros [? ?].
  - intros bars Hbars.
    assert (bars = bars_of (preAvg rows) (postAvg rows)) as ->.
    { destruct (preAvg rows), (postAvg rows); congruence. }
    split; [done|]. split; [apply bars_of_pre | apply bars_of_post].
Qed.

Lemma period_averages_witness :
  (exists m, preAvg pre_only_rows = Some m /\ (m == 3)%Q) /\
  postAvg pre_only_rows = None /\
  drawCovidComparison pre_only_rows <> NoData.
Proof.
  destruct (period_averages pre_only_rows)
    as (_ & Hpost & Hpre & _ & Hnone & _).
  split; [|split].
  - destruct (preAvg pre_only_rows) as [m|] eqn:E; [|by vm_compute in E].
    exists m. split; [done|].
    destruct (Hpre m eq_refl) as (m' & Hm' & ->).
    vm_compute in Hm'. injection Hm' as <-. by vm_compute.
  - apply Hpost. by vm_compute.
  - intros H. apply Hnone in H as [H _]. by vm_compute in H.
Defined.

(** ** The event list (C5) *)

Lemma StronglySorted_filter {A} (R : A -> A -> Prop) (f : A -> bool) l :
  StronglySorted R l -> StronglySorted R (List.filter f l).
Proof.
  induction 1 as [|a l Hs IH Ha]; cbn; [constructor|].
  destruct (f a); [|done]. constructor; [done|].
  rewrite Forall_forall in Ha. apply Forall_forall. intros x Hx.
  apply Ha. apply list_elem_of_In in Hx. apply filter_In in Hx as [Hx _].
  by apply list_elem_of_In.
Qed.

Lemma elem_of_bool_filter {A} (f : A -> bool) l x :
  x ∈ List.filter f l <-> x ∈ l /\ f x = true.
Proof. rewrite !list_elem_of_In. apply filter_In. Qed.

Section EventList.
Variable obj : EventYears.
Variable activeYear : Z.

Lemma event_entries_perm : event_entries obj ≡ₚ obj.
Proof. apply sort_perm. Qed.

(** Newest first. *)
Lemma event_list_sorted :
  StronglySorted (fun a b => b.1 <= a.1) (event_list obj activeYear).
Proof.
  pose proof (sort_descending_sorted fst obj) as Hs.
  unfold event_list, event_entries.
  destruct (List.filter _ _) eqn:E; [done|].
  rewrite <- E. by apply StronglySorted_filter.
Qed.

(** When some entry is not after the active year, exactly those are
    listed. *)
Lemma event_list_filtered :
  (exists e, e ∈ obj /\ e.1 <= activeYear) ->
  event_list obj activeYear
    = List.filter (fun e => e.1 <=? activeYear) (event_entries obj) /\
  forall e, e ∈ event_list obj activeYear <-> e ∈ obj /\ e.1 <= activeYear.
Proof.
  intros (e0 & He0 & Hle).
  assert (event_list obj activeYear
          = List.filter (fun e => e.1 <=? activeYear) (event_entries obj)) as E.
  { unfold event_list. destruct (List.filter _ _) eqn:E; [|done].
    assert (e0 ∈ List.filter (fun e => e.1 <=? activeYear) (event_entries obj)) as Hin.
    { apply elem_of_bool_filter. rewrite event_entries_perm. split; [done|lia]. }
    rewrite E in Hin. by apply elem_of_nil in Hin. }
  split; [done|]. intros e. rewrite E, elem_of_bool_filter, event_entries_perm.
  intuition lia.
Qed.

(** When every entry is after the active year, all of them are listed. *)
Lemma event_list_fallback :
  (forall e, e ∈ obj -> activeYear < e.1) ->
  event_list obj activeYear = event_entries obj.
Proof.
  intros Hgt. unfold event_list. destruct (List.filter _ _) as [|e l] eqn:E; [done|].
  assert (e ∈ List.filter (fun e => e.1 <=? activeYear) (event_entries obj)) as Hin
    by (rewrite E; left).
  apply elem_of_bool_filter in Hin as [Hin Hle].
  rewrite event_entries_perm in Hin. apply Hgt in Hin. lia.
Qed.

End EventList.

Lemma fst_imap_pair {A B} (g : nat -> A -> B) l :
  (imap (fun i a => (a, g i a)) l).*1 = l.
Proof.
  revert g. induction l as [|a l IH]; intros g; [done|].
  cbn. f_equal. apply (IH (fun i => g (S i))).
Qed.

(** A block is active exactly for the active year, and only the first
    text of an active block is the headline. *)
Lemma event_block_flags activeYear e :
  block_year (event_block activeYear e) = e.1 /\
  (block_active (event_block activeYear e) = true <-> e.1 = activeYear) /\
  (block_texts (event_block activeYear e)).*1 = e.2 /\
  forall i txt headline,
    block_texts (event_block activeYear e) !! i = Some (txt, headline) ->
    (headline = true <-> e.1 = activeYear /\ i = 0%nat).
Proof.
  unfold event_block. cbn. split; [done|]. split; [lia|]. split.
  - apply (fst_imap_pair (fun i _ => (e.1 =? activeYear) && Nat.eqb i 0)).
  - intros i txt headline Hi. rewrite list_lookup_imap in Hi.
    destruct (e.2 !! i); [|done]. cbn in Hi. injection Hi as <- <-.
    rewrite andb_true_iff, Z.eqb_eq, Nat.eqb_eq. done.
Qed.

(** What [showHistory] displays: the note exactly when the log has
    nothing under the code, else one block per listed entry. *)
Lemma showHistory_cases eventsData iso3 activeYear :
  match eventsData ≫= (fun log => log !! iso3) with
  | None => showHistory eventsData iso3 activeYear = NoEvents
  | Some obj =>
      showHistory eventsData iso3 activeYear
      = Blocks (event_block activeYear <$> event_list obj activeYear)
  end.
Proof. unfold showHistory. by destruct (eventsData ≫= _). Qed.

Example deu_events_2012 :
  showHistory (Some deu_log) DEU 2012
  = Blocks [{| block_year := 2010; block_active := false;
               block_texts := [(lit "a", false)] |}].
Proof. by vm_compute. Qed.

Example deu_events_2005 :
  exists blocks, showHistory (Some deu_log) DEU 2005 = Blocks blocks /\
                 block_year <$> blocks = [2020; 2015; 2010].
Proof. eexists. split; by vm_compute. Qed.

Example deu_events_2015 :
  showHistory (Some deu_log) DEU 2015
  = Blocks [{| block_year := 2015; block_active := true;
               block_texts := [(lit "b", true); (lit "c", false)] |};
            {| block_year := 2010; block_active := false;
               block_texts := [(lit "a", false)] |}].
Proof. by vm_compute. Qed.

(** C5: a country that the log lists with no entry at all gets an empty
    list of blocks, not the note: the note is shown only when the log has
    nothing under the code. *)
Theorem empty_year_object_shows_no_note :
  event_list [] 2020 = [] /\
  showHistory (Some empty_object_log) DEU 2020 = Blocks [] /\
  showHistory (Some empty_object_log) DEU 2020 <> NoEvents /\
  showHistory (Some ∅) DEU 2020 = NoEvents /\
  showHistory None DEU 2020 = NoEvents.
Proof. repeat split; by vm_compute. Qed.

(** ** Name reconciliation and the join (C7) *)

Lemma or_else_None dict n :
  proper dict -> or_else (dict !! n) None = dict !! n.
Proof.
  intros [_ Hcodes]. unfold or_else. destruct (dict !! n) as [c|] eqn:E; [|done].
  specialize (Hcodes n c E). by destruct c.
Qed.

Lemma trim_nil : trim [] = [].
Proof. reflexivity. Qed.

Lemma feature_iso_resolve dict raw :
  proper dict -> feature_iso dict raw = resolve dict raw.
Proof.
  intros Hd. pose proof Hd as [Hempty Hcodes]. unfold resolve.
  destruct raw as [[|c r]|]; [| |done].
  - rewrite trim_nil, Hempty. done.
  - change (feature_iso dict (Some (c :: r)))
      with (or_else (if truthy_string (trim (c :: r))
                     then or_else (dict !! trim (c :: r))
                                  (dict !! normalize (trim (c :: r)))
                     else None) None).
    destruct (trim (c :: r)) as [|c' n] eqn:En.
    + change (normalize []) with (@nil N). by rewrite Hempty.
    + cbn [truthy_string]. unfold or_else at 2.
      destruct (dict !! (c' :: n)) as [code|] eqn:E.
      * specialize (Hcodes _ _ E). by destruct code.
      * cbn [truthy]. by apply or_else_None.
Qed.

Lemma row_iso_resolve_once dict (d : CsvRecord) :
  proper dict ->
  iso3 (tag_row dict (parse_row d)) = resolve_once dict (countryName d).
Proof.
  intros Hd. pose proof Hd as [Hempty Hcodes].
  change (iso3 (tag_row dict (parse_row d)))
    with (row_iso dict (if truthy (countryName d)
                        then trim <$> countryName d else None)).
  unfold resolve_once.
  destruct (countryName d) as [[|c r]|]; [| |done].
  - rewrite trim_nil, Hempty. done.
  - change (row_iso dict (if truthy (Some (c :: r))
                          then trim <$> Some (c :: r) else None))
      with (if truthy_string (trim (c :: r))
            then or_else (dict !! trim (c :: r)) None else None).
    destruct (trim (c :: r)) as [|c' n] eqn:En.
    + by rewrite Hempty.
    + by apply or_else_None.
Qed.

Lemma elem_of_geoISOSet (features : list Feature) c :
  c ∈ geoISOSet features <-> c <> [] /\ exists f, f ∈ features /\ iso_a3 f = Some c.
Proof.
  unfold geoISOSet. rewrite elem_of_list_to_set, list_elem_of_omap. split.
  - intros (f & Hf & Hc). destruct (iso_a3 f) as [c'|] eqn:E; [|done].
    cbn in Hc. destruct c'; [done|]. injection Hc as <-. split; [done|].
    by exists f.
  - intros (Hc & f & Hf & E). exists f. split; [done|]. rewrite E.
    by destruct c.
Qed.

(** Every retained row carries the code the dictionary gives its name,
    and some feature carries the same code. *)
Lemma retained_rows dict csv geo d :
  d ∈ filtered (loadData dict csv geo) ->
  exists rec code, rec ∈ csv /\ d = tag_row dict (parse_row rec) /\
                   iso3 d = Some code /\ code <> [] /\
                   exists f, f ∈ world (loadData dict csv geo) /\ iso_a3 f = Some code.
Proof.
  cbn. rewrite elem_of_bool_filter. intros [Hd Hkeep].
  apply list_elem_of_fmap_1 in Hd as (r & -> & Hr).
  apply list_elem_of_fmap_1 in Hr as (rec & -> & Hrec).
  unfold retained in Hkeep.
  destruct (iso3 (tag_row dict (parse_row rec))) as [code|] eqn:E; [|done].
  apply andb_true_iff in Hkeep as [Hc Hin].
  apply bool_decide_eq_true in Hin. apply elem_of_geoISOSet in Hin as [Hne Hf].
  exists rec, code. by repeat split.
Qed.

(** C7 fails for tabular rows: the name needs the periods
    stripped to match; the feature gets its code through the second
    look-up, the row is looked up once, gets no code and is dropped. *)
Lemma row_name_is_not_normalized :
  resolve congo_dict (countryName congo_record) = Some COD /\
  feature_iso congo_dict (name congo_feature) = Some COD /\
  iso3 (tag_row congo_dict (parse_row congo_record)) = None /\
  iso3 (tag_row congo_dict (parse_row congo_record))
    <> resolve congo_dict (countryName congo_record) /\
  filtered (loadData congo_dict [congo_record] [congo_feature]) = [].
Proof. repeat split; by vm_compute. Qed.

Lemma congo_dict_proper : proper congo_dict.
Proof.
  split; [by vm_compute|]. intros n code H. unfold congo_dict in H.
  apply lookup_singleton_Some in H as [_ <-]. done.
Qed.

(** C7 (amended): for a dictionary of non-empty names and codes, a
    polygon feature's name is trimmed and looked up, on a miss looked up
    again with the periods stripped and the apostrophes straightened, and
    gets no code if both miss; a tabular row's name is trimmed and looked
    up once, with no second look-up, and gets no code on a miss.  Nothing
    else is tried.  A row without a code is not retained, so it is in no
    group of the per-country index and does not enter the factor maxima,
    which are computed from the retained rows; a feature without a code
    adds nothing to the set of map codes. *)
Theorem name_reconciliation (dict : gmap jsstring jsstring)
    (csv : list CsvRecord) (geo : list Feature) :
  proper dict ->
  let L := loadData dict csv geo in
  (forall f, f ∈ geo -> tag_feature dict f ∈ world L /\
                        iso_a3 (tag_feature dict f) = resolve dict (name f)) /\
  (forall rec, iso3 (tag_row dict (parse_row rec)) = resolve_once dict (countryName rec)) /\
  (forall rec, rec ∈ csv -> resolve_once dict (countryName rec) = None ->
               tag_row dict (parse_row rec) ∉ filtered L) /\
  (forall d, d ∈ filtered L ->
     exists rec code, rec ∈ csv /\ d = tag_row dict (parse_row rec) /\
                      iso3 d = Some code /\ code <> [] /\
                      exists f, f ∈ world L /\ iso_a3 f = Some code) /\
  (forall code, code ∈ geoISOSet (world L) ->
     exists f, f ∈ geo /\ resolve dict (name f) = Some code) /\
  loaded_byISO L !! None = None /\
  (forall k g d, loaded_byISO L !! k = Some g -> d ∈ g -> d ∈ filtered L /\ iso3 d = k) /\
  loaded_factorMax L = factorMax (filtered L).
Proof.
  intros Hd L. split; [|split; [|split; [|split; [|split; [|split; [|split]]]]]].
  - intros f Hf. split; [by apply list_elem_of_fmap_2|].
    by apply feature_iso_resolve.
  - intros rec. by apply row_iso_resolve_once.
  - intros rec Hrec Hnone Hin.
    apply retained_rows in Hin as (rec' & code & _ & _ & Hiso & _).
    rewrite row_iso_resolve_once in Hiso by done. congruence.
  - apply retained_rows.
  - intros code Hcode. apply elem_of_geoISOSet in Hcode as (_ & f & Hf & Hiso).
    apply list_elem_of_fmap_1 in Hf as (f0 & -> & Hf0).
    exists f0. split; [done|]. rewrite <- Hiso. symmetry.
    by apply feature_iso_resolve.
  - destruct (loaded_byISO L !! None) as [g|] eqn:E; [|done]. exfalso.
    change (loaded_byISO L) with (D3.group iso3 (filtered L)) in E.
    destruct g as [|d g]; [by apply group_nonempty in E|].
    destruct (group_elem iso3 _ _ _ d E) as [Hin Hnone]; [by left|].
    apply retained_rows in Hin as (? & ? & _ & _ & Hiso & _). congruence.
  - intros k g d Hg Hin. by apply (group_elem iso3 _ k g).
  - done.
Qed.

Lemma name_reconciliation_witness :
  iso_a3 (tag_feature congo_dict congo_feature) = Some COD /\
  tag_row congo_dict (parse_row congo_record)
    ∉ filtered (loadData congo_dict [congo_record] [congo_feature]).
Proof.
  destruct (name_reconciliation congo_dict [congo_record] [congo_feature]
              congo_dict_proper) as (Hf & _ & Hrow & _).
  split.
  - destruct (Hf congo_feature) as [_ ->]; [by left | by vm_compute].
  - apply Hrow; [by left | by vm_compute].
Defined.

(** ** The map fill (C1) *)

Lemma yearData_snoc rows d y :
  yearData (rows ++ [d]) y
  = if year d =? y then <[iso3 d := rank d]> (yearData rows y)
    else yearData rows y.
Proof.
  unfold yearData, Map_of. rewrite List.filter_app. cbn [List.filter].
  destruct (year d =? y).
  - by rewrite fmap_app, foldl_app.
  - by rewrite app_nil_r.
Qed.

(** The rank the map holds for a code: that of the last row of exactly
    that year with that code. *)
Lemma yearData_lookup rows y k :
  yearData rows y !! k
  = rank <$> last (filter (fun d => year d = y /\ iso3 d = k) rows).
Proof.
  induction rows as [|d rows IH] using rev_ind; [done|].
  rewrite yearData_snoc, filter_app.
  destruct (Z.eqb_spec (year d) y) as [Hy|Hy].
  - rewrite lookup_insert. destruct (decide (iso3 d = k)) as [Hk|Hk].
    + rewrite (filter_cons_True _ d) by done. rewrite filter_nil.
      by rewrite last_snoc.
    + rewrite (filter_cons_False _ d) by tauto.
      by rewrite filter_nil, app_nil_r.
  - rewrite (filter_cons_False _ d) by tauto.
    by rewrite filter_nil, app_nil_r.
Qed.

Lemma fill_exact_year rows y f :
  fill (yearData rows y) f = exact_year_fill rows y f.
Proof.
  unfold fill, exact_year_fill. rewrite yearData_lookup.
  destruct (last _) as [d|]; [|done]. cbn. unfold truthy_Z.
  by destruct (rank d =? 0).
Qed.

Lemma drawMap_lookup rows features y i f :
  features !! i = Some f ->
  drawMap rows features y !! i = Some (exact_year_fill rows y f).
Proof.
  intros Hf. unfold drawMap. rewrite list_lookup_fmap, Hf. cbn.
  by rewrite fill_exact_year.
Qed.

(** ** The handlers (C1, C8, C9) *)

Lemma initData_grouped dict csv geo events : grouped (initData dict csv geo events).
Proof. intros k g. cbn. apply group_nonempty. Qed.

Lemma showCountryPanel_total D y iso3 displayName shown :
  grouped D -> exists p, showCountryPanel D y iso3 displayName shown = Ok p.
Proof.
  intros HD.
  pose proof (showCountryPanel_runs D y iso3 displayName shown) as H.
  destruct (showCountryPanel D y iso3 displayName shown) as [p|].
  - by exists p.
  - exfalso. apply H; [|done]. intros g. apply HD.
Qed.

(** Past its guard the panel function rebuilds every part of the panel
    from the selected country's rows; the row it shows is the one
    [lookup] returns. *)
Lemma showCountryPanel_rebuilds D y c displayName shown :
  grouped D -> truthy_string c = true -> is_Some (byISO D !! Some c) ->
  exists p, showCountryPanel D y (Some c) displayName shown = Ok (Some p) /\
            lookup (byISO D) (Some c) y = Some (marker p) /\
            title p = displayName /\
            trend p = sort_ascending year (series (byISO D) (Some c)) /\
            factors p = factor_bar D (marker p) <$> factorKeys /\
            covid p = drawCovidComparison (trend p) /\
            history p = showHistory (eventsData D) c y.
Proof.
  intros HD Hc [g Hg]. unfold showCountryPanel, lookup, series.
  rewrite Hg, Hc. cbn [default].
  destruct (pick_row (sort_ascending year g) y) as [row|] eqn:Hp.
  - eexists. split; [reflexivity|]. by cbn.
  - apply pick_row_none in Hp. by apply HD in Hg.
Qed.

(** A handler runs to its end and changes only its own part of the view
    state; the map shows the slider's year afterwards if it did before. *)
Lemma handle_total D t v :
  grouped D ->
  exists v', handle D t v = Ok v' /\
    match t with
    | SliderInput y => sliderValue v' = y /\ selectedISO v' = selectedISO v /\
                       mapFill v' = drawMap (happinessData D) (worldData D) y
    | Click d => selectedISO v' = iso_a3 d /\ sliderValue v' = sliderValue v /\
                 mapFill v' = mapFill v
    end.
Proof.
  intros HD. destruct t as [y|d]; unfold handle.
  - destruct (truthy (selectedISO v)).
    + match goal with
      | |- context [showCountryPanel D y ?i ?n ?s] =>
          destruct (showCountryPanel_total D y i n s HD) as [p ->]
      end.
      eexists. split; [reflexivity|]. done.
    + eexists. split; [reflexivity|]. done.
  - destruct (showCountryPanel_total D (sliderValue v) (iso_a3 d) (name d)
                (panel v) HD) as [p ->].
    eexists. split; [reflexivity|]. done.
Qed.

Lemma run_total D ts v :
  grouped D -> map_current D v ->
  exists v', run D ts v = Ok v' /\ map_current D v'.
Proof.
  intros HD. revert v. induction ts as [|t ts IH]; intros v Hv.
  - by exists v.
  - cbn [run]. destruct (handle_total D t v HD) as (v1 & -> & Ht).
    apply IH. unfold map_current in *. destruct t as [y|d].
    + destruct Ht as (-> & _ & ->). done.
    + destruct Ht as (_ & -> & ->). done.
Qed.

Example small_page_world : worldData small_page = [france; germany].
Proof. by vm_compute. Qed.

(** C1 fails on the map: moved to 2016, the slider's year has no
    row for France; the lookup falls back to the 2015 row of rank 29,
    but the map, which only reads the rows of exactly 2016, fills France
    with the neutral colour. *)
Lemma map_has_no_fallback :
  exists v r,
    run small_page [SliderInput 2016] (initView small_page 2015) = Ok v /\
    lookup (byISO small_page) (iso_a3 france) (sliderValue v) = Some r /\
    rank r = 29 /\
    mapFill v !! 0%nat = Some Neutral /\
    mapFill v !! 0%nat <> Some (Scale (rank r)).
Proof.
  eexists. eexists. split; [by vm_compute|].
  split; [by vm_compute|]. repeat split; by vm_compute.
Qed.

(** C1 (amended): after every trigger the map shows, for each feature,
    the fill computed from the retained rows of exactly the slider's year
    and the feature's code: the colour scale applied to the rank of the
    last such row, or the neutral colour when there is no such row (or
    its rank is 0).  No earlier observation is used. *)
Theorem map_fill_exact_year (dict : gmap jsstring jsstring)
    (csv : list CsvRecord) (geo : list Feature)
    (events : option (gmap jsstring EventYears)) (y0 : Z) (ts : list Trigger) :
  let D := initData dict csv geo events in
  exists v,
    run D ts (initView D y0) = Ok v /\
    mapFill v = drawMap (happinessData D) (worldData D) (sliderValue v) /\
    forall i f, worldData D !! i = Some f ->
      mapFill v !! i = Some (exact_year_fill (happinessData D) (sliderValue v) f) /\
      ((forall d, d ∈ happinessData D -> iso3 d = iso_a3 f -> year d <> sliderValue v) ->
       mapFill v !! i = Some Neutral).
Proof.
  intros D.
  destruct (run_total D ts (initView D y0)) as (v & Hrun & Hmap).
  { apply initData_grouped. }
  { done. }
  exists v. split; [done|]. split; [done|].
  intros i f Hf. rewrite Hmap.
  rewrite (drawMap_lookup _ _ _ _ f Hf). split; [done|].
  intros Hnone. unfold exact_year_fill.
  destruct (last _) as [d|] eqn:Hl; [|done]. exfalso.
  apply last_Some_elem_of, list_elem_of_filter in Hl as [[Hy Hk] Hd].
  by apply (Hnone d).
Qed.

Lemma map_fill_exact_year_witness :
  exists v, run small_page [SliderInput 2016] (initView small_page 2015) = Ok v /\
            mapFill v !! 0%nat = Some Neutral.
Proof.
  destruct (map_fill_exact_year two_names [france_2015]
              [{| name := Some (lit "France"); iso_a3 := None |};
               {| name := Some (lit "Germany"); iso_a3 := None |}] None
              2015 [SliderInput 2016]) as (v & Hrun & Hmap & Hfill).
  exists v. split; [exact Hrun|].
  destruct (Hfill 0%nat france) as [_ Hneutral]; [by vm_compute|].
  apply Hneutral. intros d Hd _.
  assert (sliderValue v = 2016) as ->.
  { vm_compute in Hrun. by injection Hrun as <-. }
  vm_compute in Hd. apply list_elem_of_singleton in Hd as ->. done.
Defined.

(** C8: in the ready state every trigger is handled to its end; a year
    change sets the selected year to the new value and leaves the
    selected country as it was, a country selection sets the selected
    country to the clicked feature's code and leaves the selected year as
    it was. *)
Theorem trigger_changes_own_component (dict : gmap jsstring jsstring)
    (csv : list CsvRecord) (geo : list Feature)
    (events : option (gmap jsstring EventYears)) (t : Trigger) (v : View) :
  exists v', handle (initData dict csv geo events) t v = Ok v' /\
    match t with
    | SliderInput y => sliderValue v' = y /\ selectedISO v' = selectedISO v
    | Click d => selectedISO v' = iso_a3 d /\ sliderValue v' = sliderValue v
    end.
Proof.
  destruct (handle_total (initData dict csv geo events) t v) as (v' & Hv' & Ht).
  { apply initData_grouped. }
  exists v'. split; [done|]. destruct t; tauto.
Qed.

(** ** C9 *)

(** C9 fails: with France shown, a click on Germany, which has no
    row, selects Germany and leaves the panel as it was, still showing
    France; no empty state replaces it. *)
Lemma panel_keeps_previous_country :
  exists v1 v2 p,
    run small_page [Click france] (initView small_page 2015) = Ok v1 /\
    run small_page [Click france; Click germany] (initView small_page 2015) = Ok v2 /\
    byISO small_page !! iso_a3 germany = None /\
    selectedISO v2 = Some DEU /\
    panel v2 = panel v1 /\
    panel v2 = Some p /\ title p = Some (lit "France") /\
    iso3 (marker p) = Some FRA.
Proof.
  do 3 eexists. split; [by vm_compute|]. split; [by vm_compute|].
  split; [by vm_compute|]. split; [by vm_compute|].
  split; [by vm_compute|]. split; [by vm_compute|]. split; by vm_compute.
Qed.

Lemma showCountryPanel_guard D y iso3 displayName shown :
  truthy iso3 = false \/ byISO D !! iso3 = None ->
  showCountryPanel D y iso3 displayName shown = Ok shown.
Proof.
  unfold showCountryPanel. intros [H|H].
  - destruct iso3 as [c|]; [|done]. cbn in H. rewrite H.
    by destruct (byISO D !! Some c).
  - destruct iso3 as [c|]; [|done]. by rewrite H.
Qed.

(** C9 (amended): when the selected country's code is not a key of the
    per-country index, the panel function returns at its guard: it does
    not throw and it leaves the panel exactly as it was.  A click on
    such a country changes the selection only, and a year change while
    it is selected redraws the map only; in both cases the panel keeps
    what it showed before, and no empty state is rendered. *)
Theorem missing_country_leaves_panel (D : Data) (v : View) (d : Feature) (y : Z) :
  byISO D !! iso_a3 d = None ->
  (forall displayName shown,
      showCountryPanel D y (iso_a3 d) displayName shown = Ok shown) /\
  handle D (Click d) v
    = Ok {| sliderValue := sliderValue v; selectedISO := iso_a3 d;
            yearLabel := yearLabel v; mapFill := mapFill v; panel := panel v |} /\
  (selectedISO v = iso_a3 d ->
   handle D (SliderInput y) v
     = Ok {| sliderValue := y; selectedISO := selectedISO v;
             yearLabel := Some y;
             mapFill := drawMap (happinessData D) (worldData D) y;
             panel := panel v |}).
Proof.
  intros Hmiss.
  assert (forall y displayName shown,
             showCountryPanel D y (iso_a3 d) displayName shown = Ok shown) as Hguard
    by (intros; apply showCountryPanel_guard; by right).
  split; [apply Hguard|]. split.
  - unfold handle. by rewrite Hguard.
  - intros Hsel. unfold handle. rewrite Hsel.
    destruct (truthy (iso_a3 d)); [|done]. by rewrite Hguard.
Qed.

Lemma missing_country_leaves_panel_witness :
  byISO small_page !! iso_a3 germany = None /\
  exists v', handle small_page (Click germany) (initView small_page 2015) = Ok v' /\
             panel v' = panel (initView small_page 2015).
Proof.
  assert (byISO small_page !! iso_a3 germany = None) as Hmiss by (by vm_compute).
  split; [exact Hmiss|].
  destruct (missing_country_leaves_panel small_page (initView small_page 2015)
              germany 2015 Hmiss) as (_ & H & _).
  eexists. split; [exact H | done].
Defined.

(** * Further properties *)

(** ** The join and the index *)

Lemma bool_filter_sublist {A} (f : A -> bool) l : sublist (List.filter f l) l.
Proof.
  induction l as [|a l IH]; cbn; [constructor|].
  destruct (f a); by constructor.
Qed.

Lemma feature_iso_Some dict raw c :
  feature_iso dict raw = Some c ->
  c <> [] /\ exists r, raw = Some r /\
    (dict !! trim r = Some c \/ dict !! normalize (trim r) = Some c).
Proof.
  unfold feature_iso. destruct raw as [r|]; [|done].
  destruct (truthy (Some r)); [|done]. cbn [fmap option_fmap option_map].
  destruct (truthy_string (trim r)); [|done].
  unfold or_else at 1.
  destruct (truthy (or_else _ _)) eqn:Ht; [|done].
  intros E. rewrite E in Ht. split; [by destruct c|].
  exists r. split; [done|]. unfold or_else in E.
  destruct (truthy (dict !! trim r)); eauto.
Qed.

Lemma row_iso_Some dict country c :
  row_iso dict country = Some c ->
  c <> [] /\ exists n, country = Some n /\ n <> [] /\ dict !! n = Some c.
Proof.
  unfold row_iso. destruct country as [n|]; [|done].
  destruct (truthy_string n) eqn:Hn; [|done]. unfold or_else.
  destruct (truthy (dict !! n)) eqn:Ht; [|done].
  intros E. rewrite E in Ht. split; [by destruct c|].
  exists n. split; [done|]. split; [by destruct n | done].
Qed.

(** X1: a code given by [loadData] is never the empty string and is
    always a value of the dictionary: for a feature, the value under the
    trimmed name or under its normalized form; for a row, the value
    under its non-empty trimmed country name. *)
Theorem codes_come_from_dictionary (dict : gmap jsstring jsstring) :
  (forall f c, iso_a3 (tag_feature dict f) = Some c ->
     c <> [] /\ exists r, name f = Some r /\
       (dict !! trim r = Some c \/ dict !! normalize (trim r) = Some c)) /\
  (forall rec c, iso3 (tag_row dict (parse_row rec)) = Some c ->
     c <> [] /\ exists r, countryName rec = Some r /\ trim r <> [] /\
                          dict !! trim r = Some c).
Proof.
  split.
  - intros f c. apply feature_iso_Some.
  - intros rec c H. apply row_iso_Some in H as (Hc & n & Hn & Hne & Hd).
    split; [done|]. cbn in Hn.
    destruct (countryName rec) as [r|]; [|done].
    destruct (truthy (Some r)); [|done].
    cbn in Hn. injection Hn as <-. by exists r.
Qed.

Lemma codes_come_from_dictionary_witness :
  exists r, name congo_feature = Some r /\
            congo_dict !! normalize (trim r) = Some COD.
Proof.
  destruct (codes_come_from_dictionary congo_dict) as [Hf _].
  destruct (Hf congo_feature COD) as (_ & r & Hr & Hd); [by vm_compute|].
  exists r. split; [done|]. destruct Hd as [Hd|Hd]; [|done].
  injection Hr as <-. by vm_compute in Hd.
Defined.

(** X2: the retained rows are exactly the rows whose code is a
    non-empty string that some tagged feature carries, and they keep the
    order of the file. *)
Theorem retained_iff_code_on_map (dict : gmap jsstring jsstring)
    (csv : list CsvRecord) (geo : list Feature) (d : Row) :
  let L := loadData dict csv geo in
  let happiness := tag_row dict <$> (parse_row <$> csv) in
  (d ∈ filtered L <->
   d ∈ happiness /\
   exists c, iso3 d = Some c /\ c <> [] /\
             exists f, f ∈ geo /\ feature_iso dict (name f) = Some c) /\
  sublist (filtered L) happiness.
Proof.
  intros L happiness. split; [|apply bool_filter_sublist].
  unfold L. cbn [filtered loadData]. rewrite elem_of_bool_filter.
  fold happiness. unfold retained. split.
  - intros [Hd Hkeep]. split; [done|].
    destruct (iso3 d) as [c|]; [|done]. exists c. split; [done|].
    apply andb_true_iff in Hkeep as [_ Hin]. apply bool_decide_eq_true in Hin.
    apply elem_of_geoISOSet in Hin as (Hc & f & Hf & Hiso). split; [done|].
    apply list_elem_of_fmap_1 in Hf as (f0 & -> & Hf0). by exists f0.
  - intros (Hd & c & -> & Hc & f & Hf & Hiso). split; [done|].
    apply andb_true_iff. split; [by destruct c|].
    apply bool_decide_eq_true, elem_of_geoISOSet. split; [done|].
    exists (tag_feature dict f). split; [by apply list_elem_of_fmap_2 | done].
Qed.

Lemma retained_iff_code_on_map_witness :
  tag_row two_names (parse_row france_2015)
    ∈ filtered (loadData two_names [france_2015] [france; germany]).
Proof.
  destruct (retained_iff_code_on_map two_names [france_2015] [france; germany]
              (tag_row two_names (parse_row france_2015))) as [[_ H] _].
  apply H. split; [by left|]. exists FRA. split; [by vm_compute|].
  split; [done|]. exists france. split; [by left | by vm_compute].
Defined.

Lemma group_is_Some {A K} `{Countable K} (key : A -> K) l k :
  is_Some (D3.group key l !! k) <-> exists a, a ∈ l /\ key a = k.
Proof.
  rewrite group_lookup. split.
  - intros [g Hg]. destruct (filter _ l) as [|a l'] eqn:E; [done|].
    assert (a ∈ filter (fun a => key a = k) l) as Hin by (rewrite E; left).
    apply list_elem_of_filter in Hin as [? ?]. by exists a.
  - intros (a & Ha & Hk).
    assert (a ∈ filter (fun a => key a = k) l) as Hin
      by (by apply list_elem_of_filter).
    destruct (filter _ l); [by apply elem_of_nil in Hin | eauto].
Qed.

(** X3: the per-country index partitions the retained rows: a retained
    row is in the group of its code, a group holds exactly the retained
    rows of its code in file order, and a code is a key exactly when
    some retained row carries it. *)
Theorem index_partitions_rows (dict : gmap jsstring jsstring)
    (csv : list CsvRecord) (geo : list Feature) :
  let L := loadData dict csv geo in
  (forall d, d ∈ filtered L ->
     exists g, loaded_byISO L !! iso3 d = Some g /\ d ∈ g) /\
  (forall k g, loaded_byISO L !! k = Some g ->
     g = filter (fun d => iso3 d = k) (filtered L)) /\
  (forall k, is_Some (loaded_byISO L !! k) <->
             exists d, d ∈ filtered L /\ iso3 d = k).
Proof.
  intros L.
  change (loaded_byISO L) with (D3.group iso3 (filtered L)).
  split; [|split].
  - intros d Hd. rewrite group_lookup.
    assert (d ∈ filter (fun a => iso3 a = iso3 d) (filtered L)) as Hin
      by (by apply list_elem_of_filter).
    destruct (filter _ (filtered L)) as [|a g] eqn:E;
      [by apply elem_of_nil in Hin|]. by exists (a :: g).
  - intros k g. rewrite group_lookup.
    destruct (filter _ (filtered L)); [done|]. by intros [= <-].
  - intros k. apply group_is_Some.
Qed.

Lemma index_partitions_rows_witness :
  exists g, loaded_byISO (loadData two_names [france_2015] [france; germany])
              !! Some FRA = Some g /\
            tag_row two_names (parse_row france_2015) ∈ g.
Proof.
  destruct (index_partitions_rows two_names [france_2015] [france; germany])
    as (H & _).
  destruct (H (tag_row two_names (parse_row france_2015))) as (g & Hg & Hin).
  - vm_compute. left.
  - exists g. split; [exact Hg | exact Hin].
Defined.

(** X4: every key of the per-country index is the non-empty code of a
    feature of the map, so the panel can only open for a country that is
    drawn. *)
Theorem index_keys_are_on_map (dict : gmap jsstring jsstring)
    (csv : list CsvRecord) (geo : list Feature) (k : option jsstring) :
  let L := loadData dict csv geo in
  is_Some (loaded_byISO L !! k) ->
  exists c f, k = Some c /\ c <> [] /\ f ∈ world L /\ iso_a3 f = Some c.
Proof.
  intros L Hk.
  change (loaded_byISO L) with (D3.group iso3 (filtered L)) in Hk.
  apply group_is_Some in Hk as (d & Hd & <-).
  apply retained_rows in Hd as (_ & c & _ & _ & Hiso & Hc & f & Hf & Hfc).
  by exists c, f.
Qed.

Lemma index_keys_are_on_map_witness :
  exists c f, Some FRA = Some c /\ c <> [] /\
              f ∈ world (loadData two_names [france_2015] [france; germany]) /\
              iso_a3 f = Some c.
Proof.
  apply (index_keys_are_on_map two_names [france_2015] [france; germany]).
  eexists. vm_compute. reflexivity.
Defined.

(** ** The factor maxima as denominators *)

Lemma factorMax_cases (rows : list Row) (k : FactorKey) :
  (factorMax rows k = 1%Q /\
   forall d, d ∈ rows -> (default 0%Q (factor d k) <= 0)%Q) \/
  (~ (factorMax rows k == 0)%Q /\
   exists d, d ∈ rows /\ default 0%Q (factor d k) = factorMax rows k /\
             forall d', d' ∈ rows -> (default 0%Q (factor d' k) <= factorMax rows k)%Q).
Proof.
  destruct rows as [|d0 rows'].
  { left. split; [done|]. intros d Hd. by apply elem_of_nil in Hd. }
  destruct (factorMax_null_as_zero (d0 :: rows') k) as (M & (d & Hd & HM) & Hle & ->);
    [done|].
  destruct (Qeq_bool M 0) eqn:E.
  - left. split; [done|]. apply Qeq_bool_iff in E. intros d' Hd'.
    apply Qle_trans with M; [by apply Hle|]. apply Qle_lteq. by right.
  - right. split; [by apply Qeq_bool_neq|]. by exists d.
Qed.

Lemma factorMax_nonzero (rows : list Row) (k : FactorKey) :
  ~ (factorMax rows k == 0)%Q.
Proof.
  destruct (factorMax_cases rows k) as [[-> _] | [H _]]; [by vm_compute | done].
Qed.

Lemma factorMax_guard (rows : list Row) (k : FactorKey) :
  (if truthy_Q (factorMax rows k) then factorMax rows k else 1%Q) = factorMax rows k.
Proof.
  unfold truthy_Q. destruct (Qeq_bool (factorMax rows k) 0) eqn:E; [|done].
  apply Qeq_bool_iff in E. by apply factorMax_nonzero in E.
Qed.

(** X5: a factor maximum is never 0, so the guard [d.max || 1] of the
    bar width never replaces it and no bar divides by zero; it is
    positive whenever no retained value of the key is negative. *)
Theorem factorMax_never_zero (rows : list Row) (k : FactorKey) :
  ~ (factorMax rows k == 0)%Q /\
  (if truthy_Q (factorMax rows k) then factorMax rows k else 1%Q) = factorMax rows k /\
  ((forall d v, d ∈ rows -> factor d k = Some v -> (0 <= v)%Q) ->
   (0 < factorMax rows k)%Q).
Proof.
  split; [apply factorMax_nonzero|]. split; [apply factorMax_guard|].
  intros Hpos.
  destruct (factorMax_cases rows k) as [[-> _] | (_ & d & Hd & HM & _)];
    [by vm_compute|].
  apply Qlt_leneq. split; [|by intros H; apply (factorMax_nonzero rows k)].
  rewrite <- HM. destruct (factor d k) as [v|] eqn:Hv; cbn.
  - by apply (Hpos d).
  - apply Qle_refl.
Qed.

Lemma factorMax_never_zero_witness :
  (0 < factorMax [with_gdp (Some 3%Q); with_gdp None] gdp)%Q.
Proof.
  destruct (factorMax_never_zero [with_gdp (Some 3%Q); with_gdp None] gdp)
    as (_ & _ & H).
  apply H. intros d v Hd Hv.
  repeat (apply elem_of_cons in Hd as [->|Hd];
          [by (vm_compute in Hv; first [discriminate | injection Hv as <-])|]).
  by apply elem_of_nil in Hd.
Defined.

(** X6: on the loaded data the bar of a factor whose value for the shown
    row is not negative (a null value counts as 0) is between 0 and 100
    percent wide. *)
Theorem bar_width_in_range (dict : gmap jsstring jsstring)
    (csv : list CsvRecord) (geo : list Feature)
    (events : option (gmap jsstring EventYears)) (row : Row) (k : FactorKey) :
  let D := initData dict csv geo events in
  row ∈ happinessData D ->
  (0 <= default 0%Q (factor row k))%Q ->
  (0 <= bar_width (factor_bar D row k) <= 100)%Q.
Proof.
  intros D Hrow Hv. unfold bar_width, factor_bar. cbn [bar_value bar_max].
  change (factorMaxByKey D k) with (factorMax (happinessData D) k).
  pose proof (factorMax_nonzero (happinessData D) k) as Hnz.
  rewrite factorMax_guard.
  set (v := default 0%Q (factor row k)) in *.
  destruct (factorMax_cases (happinessData D) k)
    as [[E Hle] | (_ & d & Hd & HM & Hle)].
  - assert (v == 0)%Q as Hv0 by (apply Qle_antisym; [by apply Hle | done]).
    rewrite E, Hv0. by vm_compute.
  - specialize (Hle row Hrow). fold v in Hle.
    set (M := factorMax (happinessData D) k) in *.
    assert (0 < M)%Q as HM0.
    { apply Qlt_leneq. split; [by apply Qle_trans with v|].
      intros H. by apply Hnz. }
    split.
    + apply Qmult_le_0_compat; [|by vm_compute].
      apply Qle_shift_div_l; [done|]. by rewrite Qmult_0_l.
    + apply Qle_trans with (1 * 100)%Q; [|by vm_compute].
      apply Qmult_le_compat_r; [|by vm_compute].
      apply Qle_shift_div_r; [done|]. by rewrite Qmult_1_l.
Qed.

Lemma bar_width_in_range_witness :
  (0 <= bar_width (factor_bar small_page
                     (tag_row two_names (parse_row france_2015)) gdp) <= 100)%Q.
Proof.
  apply (bar_width_in_range two_names [france_2015]
           [{| name := Some (lit "France"); iso_a3 := None |};
            {| name := Some (lit "Germany"); iso_a3 := None |}] None).
  - vm_compute. left.
  - by vm_compute.
Defined.

(** ** The period averages lie among the scores *)





(** ** What the handlers keep *)

Lemma showCountryPanel_again D y iso3 displayName shown p :
  showCountryPanel D y iso3 displayName shown = Ok p ->
  showCountryPanel D y iso3 displayName p = Ok p.
Proof.
  unfold showCountryPanel. destruct iso3 as [c|]; [|by intros [= ->]].
  destruct (byISO D !! Some c) as [g|]; [|by intros [= ->]].
  destruct (truthy_string c); [|by intros [= ->]].
  by destruct (pick_row _ y).
Qed.

(** X8: handling a trigger a second time changes nothing: the view
    after the second run is the view after the first. *)
Theorem handle_twice (D : Data) (t : Trigger) (v v1 : View) :
  handle D t v = Ok v1 -> handle D t v1 = Ok v1.
Proof.
  destruct t as [y|d]; unfold handle.
  - destruct (truthy (selectedISO v)) eqn:Hsel.
    + match goal with
      | |- context [showCountryPanel D y ?i ?n (panel v)] =>
          destruct (showCountryPanel D y i n (panel v)) as [p|] eqn:Hp; [|done]
      end.
      cbn. intros [= <-]. cbn [selectedISO panel]. rewrite Hsel.
      apply showCountryPanel_again in Hp. by rewrite Hp.
    + cbn. intros [= <-]. cbn [selectedISO panel]. by rewrite Hsel.
  - destruct (showCountryPanel D (sliderValue v) (iso_a3 d) (name d) (panel v))
      as [p|] eqn:Hp; [|done].
    cbn. intros [= <-]. cbn [sliderValue panel].
    apply showCountryPanel_again in Hp. by rewrite Hp.
Qed.

Lemma handle_twice_witness :
  exists v1, handle small_page (Click france) (initView small_page 2015) = Ok v1 /\
             handle small_page (Click france) v1 = Ok v1.
Proof.
  destruct (handle small_page (Click france) (initView small_page 2015))
    as [v1|] eqn:E; [|by vm_compute in E].
  exists v1. split; [done|]. by apply (handle_twice _ _ _ _ E).
Defined.

Lemma run_cons D t ts v v' :
  handle D t v = Ok v' -> run D (t :: ts) v = run D ts v'.
Proof. intros H. cbn [run]. by rewrite H. Qed.

(** X9: a year change followed by a click and the click followed by the
    year change lead to the same map and the same panel content for a
    clicked country that has rows: the map is drawn for the new year,
    the clicked country is selected, and the panel shows the row that
    [lookup] gives for that country at the new year.  Only the title is
    taken from different places: from the clicked feature, or from the
    first feature with the selected code. *)
Theorem year_change_and_click_commute (D : Data) (y : Z) (d : Feature)
    (v : View) :
  grouped D -> truthy (iso_a3 d) = true -> is_Some (byISO D !! iso_a3 d) ->
  exists v1 v2 p1 p2,
    run D [SliderInput y; Click d] v = Ok v1 /\
    run D [Click d; SliderInput y] v = Ok v2 /\
    sliderValue v1 = y /\ sliderValue v2 = y /\
    selectedISO v1 = iso_a3 d /\ selectedISO v2 = iso_a3 d /\
    mapFill v1 = drawMap (happinessData D) (worldData D) y /\
    mapFill v2 = drawMap (happinessData D) (worldData D) y /\
    panel v1 = Some p1 /\ panel v2 = Some p2 /\
    lookup (byISO D) (iso_a3 d) y = Some (marker p1) /\
    marker p2 = marker p1 /\ trend p2 = trend p1 /\ factors p2 = factors p1 /\
    covid p2 = covid p1 /\ history p2 = history p1 /\
    ladderToday p2 = ladderToday p1 /\
    title p1 = name d /\
    title p2 = match find (fun f => bool_decide (iso_a3 f = iso_a3 d)) (worldData D) with
               | Some f => name f
               | None => iso_a3 d
               end.
Proof.
  intros HD Hc Hrows. destruct (iso_a3 d) as [c|] eqn:Hiso; [|done].
  cbn in Hc.
  (* the year change first *)
  destruct (handle_total D (SliderInput y) v HD) as (va & Hva & Hy & _ & Hmap).
  destruct (showCountryPanel_rebuilds D y c (name d) (panel va) HD Hc Hrows)
    as (p1 & Hp1 & Hl1 & Ht1 & Htr1 & Hf1 & Hc1 & Hh1).
  (* the click first *)
  destruct (showCountryPanel_rebuilds D (sliderValue v) c (name d) (panel v)
              HD Hc Hrows) as (p0 & Hp0 & _).
  set (name2 := match find (fun f => bool_decide (iso_a3 f = Some c)) (worldData D) with
                | Some f => name f
                | None => Some c
                end).
  destruct (showCountryPanel_rebuilds D y c name2 (Some p0) HD Hc Hrows)
    as (p2 & Hp2 & Hl2 & Ht2 & Htr2 & Hf2 & Hc2 & Hh2).
  assert (handle D (Click d) va
          = Ok {| sliderValue := sliderValue va; selectedISO := Some c;
                  yearLabel := yearLabel va; mapFill := mapFill va;
                  panel := Some p1 |}) as Hclick1.
  { unfold handle. by rewrite Hiso, Hy, Hp1. }
  assert (handle D (Click d) v
          = Ok {| sliderValue := sliderValue v; selectedISO := Some c;
                  yearLabel := yearLabel v; mapFill := mapFill v;
                  panel := Some p0 |}) as Hclick2.
  { unfold handle. by rewrite Hiso, Hp0. }
  assert (handle D (SliderInput y)
            {| sliderValue := sliderValue v; selectedISO := Some c;
               yearLabel := yearLabel v; mapFill := mapFill v;
               panel := Some p0 |}
          = Ok {| sliderValue := y; selectedISO := Some c; yearLabel := Some y;
                  mapFill := drawMap (happinessData D) (worldData D) y;
                  panel := Some p2 |}) as Hslide2.
  { unfold handle. cbn [selectedISO panel truthy]. rewrite Hc.
    fold name2. by rewrite Hp2. }
  eexists _, _, p1, p2. split; [|split].
  - rewrite (run_cons _ _ _ _ _ Hva), (run_cons _ _ _ _ _ Hclick1). reflexivity.
  - rewrite (run_cons _ _ _ _ _ Hclick2), (run_cons _ _ _ _ _ Hslide2).
    reflexivity.
  - cbn [sliderValue selectedISO mapFill panel].
    unfold showCountryPanel in Hp1, Hp2. destruct Hrows as [g Hg].
    rewrite Hg, Hc in Hp1, Hp2.
    destruct (pick_row _ y) as [row|] eqn:Hrow; [|done].
    injection Hp1 as <-. injection Hp2 as <-.
    cbn [marker trend factors covid history ladderToday title] in *.
    by repeat split.
Qed.

Lemma year_change_and_click_commute_witness :
  exists v1 v2,
    run small_page [SliderInput 2016; Click france] (initView small_page 2015) = Ok v1 /\
    run small_page [Click france; SliderInput 2016] (initView small_page 2015) = Ok v2 /\
    mapFill v1 = mapFill v2.
Proof.
  destruct (year_change_and_click_commute small_page 2016 france
              (initView small_page 2015))
    as (v1 & v2 & p1 & p2 & H1 & H2 & _ & _ & _ & _ & Hm1 & Hm2 & _).
  - apply initData_grouped.
  - by vm_compute.
  - eexists. vm_compute. reflexivity.
  - exists v1, v2. split; [done|]. split; [done|]. by rewrite Hm1, Hm2.
Defined.

(** ** The map and the panel on the same data *)

Lemma series_of_index (rows : list Row) (k : option jsstring) :
  series (D3.group iso3 rows) k = filter (fun d => iso3 d = k) rows.
Proof.
  unfold series. rewrite group_lookup. by destruct (filter _ rows).
Qed.

Lemma exact_year_fill_Scale rows y f r :
  exact_year_fill rows y f = Scale r ->
  exists d, d ∈ rows /\ year d = y /\ iso3 d = iso_a3 f /\ rank d = r /\ r <> 0.
Proof.
  unfold exact_year_fill. destruct (last _) as [d|] eqn:Hl; [|done].
  apply last_Some_elem_of, list_elem_of_filter in Hl as [[Hy Hk] Hd].
  destruct (Z.eqb_spec (rank d) 0); [done|]. intros [= <-]. by exists d.
Qed.

(** X10: on the loaded data, a feature that the map colours at the
    slider's year has rows, and a click on it opens the panel on an
    observation of exactly that year and of that country; a feature
    whose code is not a key of the index is neutral at every year. *)
Theorem coloured_country_opens_on_that_year (dict : gmap jsstring jsstring)
    (csv : list CsvRecord) (geo : list Feature)
    (events : option (gmap jsstring EventYears)) (f : Feature) (y : Z) :
  let D := initData dict csv geo events in
  (forall r shown,
     fill (yearData (happinessData D) y) f = Scale r ->
     exists p, showCountryPanel D y (iso_a3 f) (name f) shown = Ok (Some p) /\
               year (marker p) = y /\ iso3 (marker p) = iso_a3 f) /\
  (byISO D !! iso_a3 f = None ->
   fill (yearData (happinessData D) y) f = Neutral).
Proof.
  intros D.
  assert (byISO D = D3.group iso3 (happinessData D)) as HD by done.
  split.
  - intros r shown Hfill. rewrite fill_exact_year in Hfill.
    apply exact_year_fill_Scale in Hfill as (d & Hd & Hy & Hk & _).
    pose proof Hd as Hd'.
    apply (retained_rows dict csv geo) in Hd' as (_ & c & _ & _ & Hiso & Hc & _).
    assert (iso_a3 f = Some c) as Hf by congruence.
    assert (truthy_string c = true) as Htc by (by destruct c).
    assert (is_Some (byISO D !! Some c)) as Hrows.
    { rewrite HD. apply group_is_Some. by exists d. }
    destruct (showCountryPanel_rebuilds D y c (name f) shown
                (initData_grouped _ _ _ _) Htc Hrows) as (p & Hp & Hl & _).
    rewrite Hf. exists p. split; [done|].
    unfold lookup in Hl. rewrite HD, series_of_index in Hl.
    destruct (find_exists (fun r => year r =? y)
                (filter (fun d => iso3 d = Some c) (happinessData D))) as [r' Hr'].
    { exists d. split; [by apply list_elem_of_filter | lia]. }
    rewrite (pick_row_exact _ _ _ Hr') in Hl. injection Hl as <-.
    apply find_some_elem in Hr' as [Hin Hyr].
    apply list_elem_of_filter in Hin as [Hk' _]. split; [lia | done].
  - intros Hnone. rewrite fill_exact_year.
    destruct (exact_year_fill (happinessData D) y f) as [|r] eqn:E; [done|].
    apply exact_year_fill_Scale in E as (d & Hd & _ & Hk & _).
    assert (is_Some (byISO D !! iso_a3 f)) as [g Hg].
    { rewrite HD. apply group_is_Some. by exists d. }
    congruence.
Qed.

Lemma coloured_country_opens_on_that_year_witness :
  exists p, showCountryPanel small_page 2015 (iso_a3 france) (name france) None
              = Ok (Some p) /\ year (marker p) = 2015.
Proof.
  destruct (coloured_country_opens_on_that_year two_names [france_2015]
              [{| name := Some (lit "France"); iso_a3 := None |};
               {| name := Some (lit "Germany"); iso_a3 := None |}] None
              france 2015) as [H _].
  destruct (H 29 None) as (p & Hp & Hy & _); [by vm_compute|].
  by exists p.
Defined.

(** X11: when a country has several retained rows of the same year, the
    panel shows the first of them in file order and the map colours the
    country by the rank of the last of them. *)
Theorem duplicate_year_first_and_last (dict : gmap jsstring jsstring)
    (csv : list CsvRecord) (geo : list Feature)
    (events : option (gmap jsstring EventYears)) (c : jsstring) (y : Z) :
  let D := initData dict csv geo events in
  let same := filter (fun d => year d = y /\ iso3 d = Some c) (happinessData D) in
  same <> [] ->
  lookup (byISO D) (Some c) y = head same /\
  forall f, iso_a3 f = Some c ->
    fill (yearData (happinessData D) y) f
    = match last same with
      | Some d => if rank d =? 0 then Neutral else Scale (rank d)
      | None => Neutral
      end.
Proof.
  intros D same Hsame. split.
  - unfold lookup.
    change (byISO D) with (D3.group iso3 (happinessData D)).
    rewrite series_of_index.
    assert (find (fun r => year r =? y)
              (filter (fun d => iso3 d = Some c) (happinessData D)) = head same) as Hf.
    { rewrite find_head_filter.
      rewrite (filter_bool_Prop _ (fun r => year r = y)) by (intros r; lia).
      by rewrite list_filter_filter. }
    destruct (head same) as [d|] eqn:Hh; [|by destruct same].
    by apply pick_row_exact.
  - intros f Hf. rewrite fill_exact_year. unfold exact_year_fill. by rewrite Hf.
Qed.

Lemma duplicate_year_first_and_last_witness :
  (rank <$> lookup (byISO twice_2015) (Some FRA) 2015) = Some 29 /\
  fill (yearData (happinessData twice_2015) 2015) france = Scale 30.
Proof.
  destruct (duplicate_year_first_and_last two_names [france_2015; france_2015_again]
              [{| name := Some (lit "France"); iso_a3 := None |}] None FRA 2015)
    as [Hl Hf].
  - by vm_compute.
  - split.
    + change (byISO twice_2015) with
        (byISO (initData two_names [france_2015; france_2015_again]
                  [{| name := Some (lit "France"); iso_a3 := None |}] None)).
      rewrite Hl. by vm_compute.
    + change (happinessData twice_2015) with
        (happinessData (initData two_names [france_2015; france_2015_again]
                          [{| name := Some (lit "France"); iso_a3 := None |}] None)).
      rewrite (Hf france) by done. by vm_compute.
Defined.

(** ** The event list *)

Lemma StronglySorted_fmap {A B} (f : A -> B) (R : B -> B -> Prop) l :
  StronglySorted (fun a b => R (f a) (f b)) l -> StronglySorted R (f <$> l).
Proof.
  induction 1 as [|a l Hs IH Ha]; cbn; constructor; [done|].
  apply Forall_fmap. eapply Forall_impl; [exact Ha|]. by intros b Hb.
Qed.

Lemma event_list_nil obj activeYear : event_list obj activeYear = [] <-> obj = [].
Proof.
  unfold event_list, event_entries. split.
  - destruct (List.filter _ _); [|done]. apply sort_nil_inv.
  - by intros ->.
Qed.

(** X12: for a country that the log lists, the history shows blocks
    (never the note), newest year first; no block is shown only when the
    country's year object is empty.  When some entry is not after the
    active year the blocks are exactly the entries up to the active
    year; otherwise, the active year preceding every entry, all entries
    are shown.  A block is marked active exactly when its year is the
    active year, every block carries the texts of its entry in their
    order, and a text is the headline exactly when it is the first text
    of an active block. *)
Theorem history_blocks (log : gmap jsstring EventYears) (c : jsstring)
    (obj : EventYears) (activeYear : Z) :
  log !! c = Some obj ->
  exists blocks,
    showHistory (Some log) c activeYear = Blocks blocks /\
    (blocks = [] <-> obj = []) /\
    StronglySorted (fun a b => block_year b <= block_year a) blocks /\
    ((exists e, e ∈ obj /\ e.1 <= activeYear) ->
     forall b, b ∈ blocks <->
       exists e, e ∈ obj /\ e.1 <= activeYear /\ b = event_block activeYear e) /\
    ((forall e, e ∈ obj -> activeYear < e.1) ->
     blocks ≡ₚ event_block activeYear <$> obj) /\
    (forall b, b ∈ blocks ->
       (block_active b = true <-> block_year b = activeYear) /\
       (exists e, e ∈ obj /\ block_year b = e.1 /\ (block_texts b).*1 = e.2) /\
       forall i txt headline,
         block_texts b !! i = Some (txt, headline) ->
         (headline = true <-> block_year b = activeYear /\ i = 0%nat)).
Proof.
  intros Hobj. exists (event_block activeYear <$> event_list obj activeYear).
  split; [unfold showHistory; cbn; by rewrite Hobj|].
  split; [|split; [|split; [|split]]].
  - rewrite <- event_list_nil. split; [apply fmap_nil_inv | by intros ->].
  - apply StronglySorted_fmap. cbn. apply event_list_sorted.
  - intros Hex b. destruct (event_list_filtered obj activeYear Hex) as [_ Hin].
    rewrite list_elem_of_fmap. split.
    + intros (e & -> & He). apply Hin in He as [? ?]. by exists e.
    + intros (e & He & Hle & ->). exists e. split; [done|]. by apply Hin.
  - intros Hgt. rewrite (event_list_fallback obj activeYear Hgt).
    by rewrite event_entries_perm.
  - intros b Hb. apply list_elem_of_fmap_1 in Hb as (e & -> & He).
    destruct (event_block_flags activeYear e) as (Hy & Hact & Htxt & Hhead).
    rewrite Hy. split; [done|]. split; [|done].
    exists e. split; [|done].
    unfold event_list in He. destruct (List.filter _ _) eqn:E.
    + by rewrite event_entries_perm in He.
    + rewrite <- E in He. apply elem_of_bool_filter in He as [He _].
      by rewrite event_entries_perm in He.
Qed.

Lemma history_blocks_witness :
  exists blocks, showHistory (Some deu_log) DEU 2005 = Blocks blocks /\
                 length blocks = 3%nat.
Proof.
  destruct (history_blocks deu_log DEU
              [(2010, [lit "a"]); (2015, [lit "b"; lit "c"]); (2020, [lit "d"])]
              2005) as (blocks & Hshow & _ & _ & _ & Hall & _).
  - by vm_compute.
  - exists blocks. split; [done|]. rewrite Hall; [done|].
    intros e He.
    repeat (apply elem_of_cons in He as [->|He]; [by vm_compute|]).
    by apply elem_of_nil in He.
Defined.

(** ** The normalized spelling of a name *)

Lemma normalize_cons c s :
  normalize (c :: s)
  = if N.eqb c period then normalize s
    else (if (N.eqb c right_single_quote || N.eqb c apostrophe)%bool
          then apostrophe else c) :: normalize s.
Proof.
  unfold normalize, strip_periods, straighten_apostrophes. cbn [List.filter].
  by destruct (N.eqb c period).
Qed.

(** X13: the normalized spelling contains no period and no typographic
    apostrophe, keeps every other character in place, and normalizing it
    again changes nothing; a name without those two characters is its
    own normalized spelling. *)
Theorem normalize_canonical (s : jsstring) :
  (period ∉ normalize s) /\
  (right_single_quote ∉ normalize s) /\
  normalize (normalize s) = normalize s /\
  (length (normalize s) <= length s)%nat /\
  (period ∉ s -> right_single_quote ∉ s -> normalize s = s).
Proof.
  induction s as [|c s (IH1 & IH2 & IH3 & IH4 & IH5)].
  { repeat split; try done; by apply not_elem_of_nil. }
  rewrite normalize_cons. destruct (N.eqb_spec c period) as [->|Hp].
  - repeat split; try done; [cbn [length]; lia|].
    intros Hn. exfalso. apply Hn. by left.
  - destruct (N.eqb_spec c right_single_quote) as [->|Hq]; cbn [orb].
    + split; [|split; [|split; [|split]]].
      * apply not_elem_of_cons. split; [done|done].
      * apply not_elem_of_cons. split; [done|done].
      * rewrite normalize_cons. cbn. by rewrite IH3.
      * cbn [length]. lia.
      * intros _ Hn. exfalso. apply Hn. by left.
    + destruct (N.eqb_spec c apostrophe) as [->|Ha].
      * split; [|split; [|split; [|split]]].
        -- apply not_elem_of_cons. split; [done|done].
        -- apply not_elem_of_cons. split; [done|done].
        -- rewrite normalize_cons. cbn. by rewrite IH3.
        -- cbn [length]. lia.
        -- intros H1 H2. apply not_elem_of_cons in H1 as [_ H1].
           apply not_elem_of_cons in H2 as [_ H2]. by rewrite IH5.
      * split; [|split; [|split; [|split]]].
        -- apply not_elem_of_cons. split; [congruence|done].
        -- apply not_elem_of_cons. split; [congruence|done].
        -- rewrite normalize_cons.
           destruct (N.eqb_spec c period); [done|].
           destruct (N.eqb_spec c right_single_quote); [done|].
           destruct (N.eqb_spec c apostrophe); [done|]. cbn. by rewrite IH3.
        -- cbn [length]. lia.
        -- intros H1 H2. apply not_elem_of_cons in H1 as [_ H1].
           apply not_elem_of_cons in H2 as [_ H2]. by rewrite IH5.
Qed.

Lemma normalize_canonical_witness :
  normalize (lit "Dem Rep Congo") = lit "Dem Rep Congo".
Proof.
  destruct (normalize_canonical (lit "Dem Rep Congo")) as (_ & _ & _ & _ & H).
  apply H.
  - intros Hin. vm_compute in Hin.
    repeat (apply elem_of_cons in Hin as [Hin|Hin]; [done|]).
    by apply elem_of_nil in Hin.
  - intros Hin. vm_compute in Hin.
    repeat (apply elem_of_cons in Hin as [Hin|Hin]; [done|]).
    by apply elem_of_nil in Hin.
Defined.

(** ** The sparkline *)

Lemma ceil_div_step (s i : nat) :
  (0 < s)%nat ->
  ((i + s) / s = (i + s - 1) / s + (if (i mod s =? 0)%nat then 1 else 0))%nat.
Proof.
  intros Hs.
  pose proof (Nat.div_mod_eq i s) as E.
  pose proof (Nat.mod_upper_bound i s ltac:(lia)) as Hr.
  set (q := (i / s)%nat) in *. set (r := (i mod s)%nat) in *.
  assert ((i + s) / s = q + 1)%nat as ->.
  { replace (i + s)%nat with (r + (q + 1) * s)%nat by lia.
    rewrite Nat.div_add by lia. rewrite Nat.div_small by lia. lia. }
  destruct (Nat.eqb_spec r 0) as [Hr0|Hr0].
  - replace (i + s - 1)%nat with ((s - 1) + q * s)%nat by lia.
    rewrite Nat.div_add by lia. rewrite Nat.div_small by lia. lia.
  - replace (i + s - 1)%nat with ((r - 1) + (q + 1) * s)%nat by lia.
    rewrite Nat.div_add by lia. rewrite Nat.div_small by lia. lia.
Qed.

(** Keeping every [s]-th element from index [i] on. *)
Lemma filter_index_multiples {A} (s i : nat) (l : list A) :
  (0 < s)%nat ->
  ((i + s - 1) / s + length (filter_index (fun j => (j mod s =? 0)%nat) i l)
   = (i + length l + s - 1) / s)%nat.
Proof.
  intros Hs. revert i. induction l as [|x t IH]; intros i.
  - cbn [filter_index length]. by rewrite !Nat.add_0_r.
  - cbn [filter_index length]. specialize (IH (S i)).
    pose proof (ceil_div_step s i Hs) as Hstep.
    replace (S i + s - 1)%nat with (i + s)%nat in IH by lia.
    replace (S i + length t + s - 1)%nat with (i + S (length t) + s - 1)%nat
      in IH by lia.
    destruct (i mod s =? 0)%nat; cbn [length]; lia.
Qed.

Lemma filter_index_sublist {A} (keep : nat -> bool) i (l : list A) :
  sublist (filter_index keep i l) l.
Proof.
  revert i. induction l as [|x t IH]; intros i; cbn; [constructor|].
  destruct (keep i); by constructor.
Qed.

Lemma sparkline_ticks_in_years rows t :
  t ∈ sparkline_ticks rows -> exists d, d ∈ rows /\ year d = t.
Proof.
  intros Ht.
  assert (t ∈ year <$> rows) as Hin.
  { unfold sparkline_ticks in Ht. destruct (_ <? _)%nat; [|done].
    eapply elem_of_sublist; [exact Ht | apply filter_index_sublist]. }
  apply list_elem_of_fmap_1 in Hin as (d & -> & Hd). by exists d.
Qed.

(** X14: the sparkline shows at most six year labels; they are years of
    the series in their order, the first year is always labelled, and a
    series of at most six rows has all its years labelled. *)
Theorem sparkline_ticks_few (rows : list Row) :
  (length (sparkline_ticks rows) <= 6)%nat /\
  sublist (sparkline_ticks rows) (year <$> rows) /\
  head (sparkline_ticks rows) = head (year <$> rows) /\
  ((length rows <= 6)%nat -> sparkline_ticks rows = year <$> rows).
Proof.
  unfold sparkline_ticks. rewrite length_fmap.
  destruct (Nat.ltb_spec 6 (length rows)) as [Hn|Hn].
  - pose proof (Nat.div_mod_eq (length rows + 5) 6) as Hdiv.
    pose proof (Nat.mod_upper_bound (length rows + 5) 6 ltac:(lia)) as Hmod.
    fold (tick_step (length rows)) in Hdiv.
    assert (0 < tick_step (length rows))%nat as Hs by lia.
    split; [|split; [|split]].
    + pose proof (filter_index_multiples (tick_step (length rows)) 0
                    (year <$> rows) Hs) as Hc.
      rewrite length_fmap in Hc.
      rewrite (Nat.div_small (0 + tick_step (length rows) - 1)) in Hc by lia.
      cbn [Nat.add] in Hc. rewrite Hc.
      apply Nat.lt_succ_r, Nat.Div0.div_lt_upper_bound. lia.
    + apply filter_index_sublist.
    + destruct rows as [|r rows']; [done|]. cbn [fmap list_fmap filter_index].
      by rewrite Nat.Div0.mod_0_l.
    + lia.
  - split; [by rewrite length_fmap|]. by repeat split.
Qed.

Lemma sparkline_ticks_few_witness :
  sparkline_ticks fra_rows = [2017; 2015; 2020].
Proof.
  destruct (sparkline_ticks_few fra_rows) as (_ & _ & _ & H).
  rewrite H; [done | cbn; lia].
Defined.

Section ExtentFacts.
Context {A : Type} (key : A -> Z).

Lemma extent_snoc l a :
  extent (fun x => Some (key x)) (l ++ [a])
  = extent_step (fun x => Some (key x)) (extent (fun x => Some (key x)) l) a.
Proof. unfold extent. by rewrite foldl_app. Qed.

(** [d3.extent] returns the least and the greatest value, both attained. *)
Lemma extent_spec l :
  match extent (fun x => Some (key x)) l with
  | Some (lo, hi) =>
      (exists a, a ∈ l /\ key a = lo) /\ (exists a, a ∈ l /\ key a = hi) /\
      forall a, a ∈ l -> lo <= key a <= hi
  | None => l = []
  end.
Proof.
  induction l as [|a l IH] using rev_ind; [done|].
  rewrite extent_snoc. unfold extent_step.
  destruct (extent _ l) as [[lo hi]|].
  - destruct IH as ((a1 & Ha1 & Hlo) & (a2 & Ha2 & Hhi) & Hb).
    pose proof (Hb a1 Ha1). pose proof (Hb a2 Ha2).
    split; [|split].
    + destruct (Z.ltb_spec (key a) lo).
      * exists a. split; [|done]. apply elem_of_app. right. by left.
      * exists a1. split; [|done]. apply elem_of_app. by left.
    + destruct (Z.ltb_spec hi (key a)).
      * exists a. split; [|done]. apply elem_of_app. right. by left.
      * exists a2. split; [|done]. apply elem_of_app. by left.
    + intros x Hx. apply elem_of_app in Hx as [Hx|Hx].
      * specialize (Hb x Hx).
        destruct (Z.ltb_spec (key a) lo), (Z.ltb_spec hi (key a)); lia.
      * apply list_elem_of_singleton in Hx as ->.
        destruct (Z.ltb_spec (key a) lo), (Z.ltb_spec hi (key a)); lia.
  - subst l. cbn. split; [|split].
    + exists a. split; [by left | done].
    + exists a. split; [by left | done].
    + intros x Hx. apply list_elem_of_singleton in Hx as ->. lia.
Qed.
End ExtentFacts.

(** X15: for a country with rows, the x domain of the sparkline runs
    from the smallest to the largest year of the series, which are the
    years of the first and of the last row of the sorted series; the
    row the marker sits on, whatever the slider's year, and every year
    label lie inside the domain. *)
Theorem sparkline_domain_spans_series (group : list Row) :
  group <> [] ->
  let rows := sort_ascending year group in
  exists lo hi,
    sparkline_domain rows = Some (lo, hi) /\
    head (year <$> rows) = Some lo /\ last (year <$> rows) = Some hi /\
    (forall d, d ∈ group -> lo <= year d <= hi) /\
    (forall q r, pick_row rows q = Some r -> lo <= year r <= hi) /\
    (forall t, t ∈ sparkline_ticks rows -> lo <= t <= hi).
Proof.
  intros Hne rows.
  pose proof (extent_spec year rows) as H. unfold sparkline_domain.
  destruct (extent _ rows) as [[lo hi]|];
    [|by apply sort_nil_inv in H].
  destruct H as ((a1 & Ha1 & Hlo) & (a2 & Ha2 & Hhi) & Hb).
  exists lo, hi. split; [done|].
  pose proof (sort_ascending_sorted year group) as Hs. fold rows in Hs.
  assert (forall d, d ∈ group -> lo <= year d <= hi) as Hgroup.
  { intros d Hd. apply Hb. by apply sort_elem_of. }
  split; [|split; [|split; [done|split]]].
  - destruct rows as [|r0 rows'] eqn:E; [by apply elem_of_nil in Ha1|].
    cbn. f_equal. apply StronglySorted_inv in Hs as [_ Hall].
    rewrite Forall_forall in Hall.
    pose proof (Hb r0 ltac:(left)).
    apply elem_of_cons in Ha1 as [->|Ha1]; [done|].
    specialize (Hall a1 Ha1). lia.
  - destruct (last rows) as [r1|] eqn:El.
    + rewrite fmap_last, El. cbn. f_equal.
      apply last_Some in El as [l' El]. rewrite El in Hs, Ha2, Hb.
      pose proof (Hb r1 ltac:(apply elem_of_app; right; left)).
      apply elem_of_app in Ha2 as [Ha2|Ha2].
      * apply StronglySorted_before in Hs. rewrite Forall_forall in Hs.
        specialize (Hs a2 Ha2). lia.
      * apply list_elem_of_singleton in Ha2 as ->. done.
    + apply last_None in El. rewrite El in Ha1. by apply elem_of_nil in Ha1.
  - intros q r Hr. apply Hb. by apply pick_row_elem in Hr.
  - intros t Ht.
    destruct (sparkline_ticks_in_years rows t Ht) as (d & Hd & <-). by apply Hb.
Qed.

Lemma sparkline_domain_spans_series_witness :
  sparkline_domain (sort_ascending year fra_rows) = Some (2015, 2020).
Proof.
  destruct (sparkline_domain_spans_series fra_rows) as (lo & hi & H & _);
    [done|].
  rewrite H. by vm_compute in H.
Defined.

(** ** The lazy start *)

Lemma intersect_booted entries b :
  booted b ->
  booted (intersect entries b) /\
  (loadsStarted (intersect entries b) = 1%nat <->
   loadsStarted b = 1%nat \/ true ∈ entries).
Proof.
  intros [(Hi & Ho & Hl) | (Hi & Ho & Hl)].
  - unfold intersect. rewrite Ho.
    assert (forall b0, booted b0 ->
              let b1 := foldl (fun (b : Boot) (e : bool) =>
                                 if e then disconnect (initViz b) else b)
                              b0 entries in
              booted b1 /\
              (loadsStarted b1 = 1%nat <->
               loadsStarted b0 = 1%nat \/ true ∈ entries)) as Hfold.
    { clear. induction entries as [|e es IH]; intros b0 Hb0.
      - cbn. split; [done|]. split; [tauto|]. intros [?|H]; [done|].
        by apply elem_of_nil in H.
      - cbn [foldl]. destruct e.
        + assert (booted (disconnect (initViz b0)) /\
                  loadsStarted (disconnect (initViz b0)) = 1%nat) as [Hb1 Hl1].
          { unfold booted.
            destruct Hb0 as [(Hi & Ho & Hl) | (Hi & Ho & Hl)];
              unfold initViz; rewrite Hi; cbn; (split; [right|]); by rewrite ?Hl. }
          destruct (IH _ Hb1) as [Hb2 Hiff]. split; [done|].
          split; [intros _; right; by left|]. intros _. apply Hiff. by left.
        + destruct (IH _ Hb0) as [Hb2 Hiff]. split; [done|].
          rewrite Hiff. split; intros [?|H]; try tauto.
          * right. by right.
          * apply elem_of_cons in H as [?|?]; [done | tauto]. }
    apply Hfold. left. done.
  - unfold intersect. rewrite Ho. split; [by right|]. tauto.
Qed.

(** X16: however often and with whatever entries the observer reports,
    [loadData] is called at most once: it is called exactly when some
    reported entry intersects, from then on the flag is set and the
    observer is disconnected, and a direct second call of [initViz]
    changes nothing. *)
Theorem loadData_starts_once (batches : list (list bool)) :
  let b := foldl (fun b entries => intersect entries b) boot0 batches in
  (loadsStarted b <= 1)%nat /\
  (loadsStarted b = 1%nat <-> exists entries, entries ∈ batches /\ true ∈ entries) /\
  (initialized b = true <-> loadsStarted b = 1%nat) /\
  (observing b = false <-> loadsStarted b = 1%nat) /\
  initViz (initViz b) = initViz b /\
  (loadsStarted (initViz b) = 1)%nat.
Proof.
  assert (forall b0, booted b0 ->
            let b := foldl (fun b entries => intersect entries b) b0 batches in
            booted b /\
            (loadsStarted b = 1%nat <->
             loadsStarted b0 = 1%nat \/
             exists entries, entries ∈ batches /\ true ∈ entries)) as Hfold.
  { induction batches as [|es bs IH]; intros b0 Hb0.
    - cbn. split; [done|]. split; [tauto|]. intros [?|(es & H & _)]; [done|].
      by apply elem_of_nil in H.
    - cbn [foldl]. destruct (intersect_booted es b0 Hb0) as [Hb1 Hiff1].
      destruct (IH _ Hb1) as [Hb2 Hiff2]. split; [done|].
      rewrite Hiff2, Hiff1. split.
      + intros [[?|?]|(es' & H & Ht)]; [tauto | |].
        * right. exists es. split; [by left | done].
        * right. exists es'. split; [by right | done].
      + intros [?|(es' & H & Ht)]; [tauto|].
        apply elem_of_cons in H as [->|H]; [tauto|]. right. by exists es'. }
  intros b. destruct (Hfold boot0) as [Hb Hiff]; [by left|]. fold b in Hb, Hiff.
  split; [|split; [|split; [|split; [|split]]]].
  - destruct Hb as [(_ & _ & ->) | (_ & _ & ->)]; lia.
  - rewrite Hiff. cbn. split; [intros [?|?]; [done|done] | by right].
  - destruct Hb as [(-> & _ & ->) | (-> & _ & ->)]; split; done.
  - destruct Hb as [(_ & -> & ->) | (_ & -> & ->)]; split; done.
  - unfold initViz. destruct (initialized b) eqn:E; [by rewrite E | done].
  - unfold initViz.
    destruct Hb as [(-> & _ & ->) | (-> & _ & ->)]; done.
Qed.

(** ** The diagnostics of the first revision *)



Lemma legacy_feature_iso dict f :
  Legacy.feature_iso dict (Legacy.trimmed_name f) = feature_iso dict (name f).
Proof.
  unfold Legacy.feature_iso, Legacy.trimmed_name, feature_iso.
  destruct (name f) as [r|]; [|done].
  destruct (truthy (Some r)); [|done]. cbn [fmap option_fmap option_map].
  destruct (truthy_string (trim r)); [done|]. done.
Qed.



(** X18: in the first revision a row whose country name is not empty
    either has a code or has its name on the list of missing names; the
    names on that list are exactly the non-empty names of the rows
    without a code, and no retained row is among those rows. *)
Theorem missing_rows_reported (dict : gmap jsstring jsstring)
    (rows : list Row) (geo : list Feature) :
  let happiness := tag_row dict <$> rows in
  (forall n, n ∈ Legacy.missingCSV happiness <->
     n <> [] /\ exists d, d ∈ happiness /\ country d = Some n /\ iso3 d = None) /\
  (forall d n, d ∈ happiness -> country d = Some n -> n <> [] ->
     (exists c, c <> [] /\ iso3 d = Some c /\ dict !! n = Some c) \/
     n ∈ Legacy.missingCSV happiness) /\
  (forall d, d ∈ (Legacy.loadData dict rows geo).1 ->
     d ∈ happiness /\ exists c, iso3 d = Some c /\ c <> []).
Proof.
  intros happiness.
  assert (forall d, d ∈ happiness ->
            iso3 d = None \/ exists c n, iso3 d = Some c /\ c <> [] /\
                                         country d = Some n /\ dict !! n = Some c)
    as Hiso.
  { intros d Hd. apply list_elem_of_fmap_1 in Hd as (r & -> & _). cbn.
    destruct (row_iso dict (country r)) as [c|] eqn:E; [|by left]. right.
    apply row_iso_Some in E as (Hc & n & Hn & _ & Hd). by exists c, n. }
  assert (forall n, n ∈ Legacy.missingCSV happiness <->
            n <> [] /\ exists d, d ∈ happiness /\ country d = Some n /\ iso3 d = None)
    as Hlist.
  { intros n. unfold Legacy.missingCSV. rewrite list_elem_of_omap. split.
    - intros (c & Hc & Hn). destruct (truthy c) eqn:Ht; [|done]. subst c.
      apply list_elem_of_fmap_1 in Hc as (d & Hcd & Hd).
      apply elem_of_bool_filter in Hd as [Hd Hno].
      split; [by destruct n|]. exists d. split; [done|]. split; [done|].
      destruct (Hiso d Hd) as [?|(c & ? & E & Hc & _)]; [done|].
      rewrite E in Hno. by destruct c.
    - intros (Hn & d & Hd & Hc & Hno). exists (Some n).
      split; [|by destruct n]. rewrite <- Hc. apply list_elem_of_fmap_2.
      apply elem_of_bool_filter. split; [done|]. by rewrite Hno. }
  split; [done|]. split.
  - intros d n Hd Hc Hn. destruct (Hiso d Hd) as [Hno|(c & n' & E & Hcne & Hc' & Hdict)].
    + right. apply Hlist. split; [done|]. by exists d.
    + left. exists c. split; [done|]. split; [done|]. congruence.
  - intros d Hd. cbn in Hd. apply elem_of_bool_filter in Hd as [Hd Hkeep].
    split; [done|]. unfold retained in Hkeep.
    destruct (iso3 d) as [c|]; [|done]. exists c. split; [done|].
    apply andb_true_iff in Hkeep as [Hc _]. by destruct c.
Qed.

Lemma missing_rows_reported_witness :
  lit "Dem. Rep. Congo" ∈ Legacy.missingCSV (tag_row congo_dict <$> [parse_row congo_record]).
Proof.
  destruct (missing_rows_reported congo_dict [parse_row congo_record] [congo_feature])
    as (_ & H & _).
  destruct (H (tag_row congo_dict (parse_row congo_record)) (lit "Dem. Rep. Congo"))
    as [(c & _ & Hc & _) | Hin]; [by left | by vm_compute | done | | done].
  by vm_compute in Hc.
Defined.

Lemma feature_iso_falsy dict raw :
  truthy (feature_iso dict raw) = false -> feature_iso dict raw = None.
Proof.
  unfold feature_iso. cbv zeta. unfold or_else at 1 3.
  destruct (truthy (match _ with Some _ => _ | None => _ end)) eqn:E;
    [congruence | done].
Qed.

(** X19: the first revision tags a feature as the current one does when
    the feature gets a code, and leaves it as it came, with the code it
    came with, when it gets none; so on features that come without a
    code of their own the two revisions tag the features alike and
    retain the same rows. *)
Theorem revisions_agree (dict : gmap jsstring jsstring)
    (csv : list CsvRecord) (geo : list Feature) :
  (forall f, Legacy.tag_feature dict f
             = if truthy (feature_iso dict (name f)) then tag_feature dict f else f) /\
  ((forall f, f ∈ geo -> iso_a3 f = None) ->
   Legacy.loadData dict (parse_row <$> csv) geo
   = (filtered (loadData dict csv geo), world (loadData dict csv geo))).
Proof.
  assert (forall f, Legacy.tag_feature dict f
             = if truthy (feature_iso dict (name f)) then tag_feature dict f else f)
    as Htag.
  { intros f. unfold Legacy.tag_feature, tag_feature.
    by rewrite legacy_feature_iso. }
  split; [done|]. intros Hgeo.
  assert (Legacy.tag_feature dict <$> geo = tag_feature dict <$> geo) as Hw.
  { apply list_fmap_ext. intros i f Hf.
    apply list_elem_of_lookup_2 in Hf. specialize (Hgeo f Hf).
    rewrite Htag. unfold tag_feature.
    destruct (truthy (feature_iso dict (name f))) eqn:Ht; [done|].
    rewrite (feature_iso_falsy _ _ Ht). destruct f as [n i0]. cbn in *.
    by subst i0. }
  unfold Legacy.loadData. cbn [filtered world loadData]. by rewrite Hw.
Qed.

Lemma revisions_agree_witness :
  (Legacy.loadData two_names (parse_row <$> [france_2015])
     [{| name := Some (lit "France"); iso_a3 := None |}]).1
  = filtered (loadData two_names [france_2015]
                [{| name := Some (lit "France"); iso_a3 := None |}]).
Proof.
  destruct (revisions_agree two_names [france_2015]
              [{| name := Some (lit "France"); iso_a3 := None |}]) as [_ H].
  rewrite H; [done|].
  intros f Hf. by apply list_elem_of_singleton in Hf as ->.
Defined.

(** ** Decimal commas *)

Lemma count_replace_first_comma (s : jsstring) :
  count_occ N.eq_dec (replace_first_comma s) 44%N
  = pred (count_occ N.eq_dec s 44%N).
Proof.
  induction s as [|c s IH]; [done|]. cbn [replace_first_comma].
  destruct (N.eqb_spec c 44) as [->|Hc].
  - rewrite (count_occ_cons_neq N.eq_dec s (x:=46%N) (y:=44%N)) by done.
    by rewrite (count_occ_cons_eq N.eq_dec s (x:=44%N) (y:=44%N)).
  - by rewrite !count_occ_cons_neq by done.
Qed.

Lemma count_strip_spaces (s : jsstring) (c : N) :
  is_space c = false ->
  count_occ N.eq_dec (strip_spaces s) c = count_occ N.eq_dec s c.
Proof.
  intros Hc. induction s as [|a s IH]; [done|]. unfold strip_spaces in *.
  cbn [List.filter]. destruct (is_space a) eqn:Ha; cbn [negb].
  - rewrite count_occ_cons_neq by congruence. done.
  - destruct (N.eq_dec a c) as [->|Hne].
    + by rewrite !count_occ_cons_eq, IH by done.
    + by rewrite !count_occ_cons_neq, IH by done.
Qed.

Lemma replace_first_comma_id (s : jsstring) :
  count_occ N.eq_dec s 44%N = 0%nat -> replace_first_comma s = s.
Proof.
  induction s as [|c s IH]; [done|]. cbn [replace_first_comma].
  destruct (N.eqb_spec c 44) as [->|Hc].
  - by rewrite count_occ_cons_eq.
  - rewrite count_occ_cons_neq by done. intros H. by rewrite IH.
Qed.

(** X20: the text [parseComma] gives to [parseFloat] contains no white
    space and exactly one comma fewer than the cell (none fewer when the
    cell has none): only the first comma becomes a decimal point, so a
    cell with two commas still holds a comma.  A cell without comma and
    white space is passed on unchanged, and a missing or empty cell
    gives [null] whatever [parseFloat] does. *)
Theorem comma_to_point_clean (parseFloat : jsstring -> option Q) (s : jsstring) :
  (forall c, c ∈ comma_to_point s -> is_space c = false) /\
  count_occ N.eq_dec (comma_to_point s) 44%N = pred (count_occ N.eq_dec s 44%N) /\
  (count_occ N.eq_dec s 44%N = 0%nat -> (forall c, c ∈ s -> is_space c = false) ->
   comma_to_point s = s) /\
  parseComma parseFloat None = None /\
  parseComma parseFloat (Some []) = None /\
  (s <> [] -> parseComma parseFloat (Some s) = parseFloat (comma_to_point s)).
Proof.
  unfold comma_to_point. split; [|split; [|split; [|split; [|split]]]].
  - intros c Hc. unfold strip_spaces in Hc.
    apply elem_of_bool_filter in Hc as [_ Hc]. by destruct (is_space c).
  - rewrite count_strip_spaces by done. apply count_replace_first_comma.
  - intros H0 Hsp. rewrite replace_first_comma_id by done.
    unfold strip_spaces. induction s as [|c s IH]; [done|]. cbn [List.filter].
    rewrite (Hsp c) by left. cbn [negb]. f_equal. apply IH.
    + destruct (N.eq_dec c 44%N) as [->|Hne].
      * by rewrite count_occ_cons_eq in H0.
      * by rewrite count_occ_cons_neq in H0.
    + intros c' Hc'. apply Hsp. by right.
  - done.
  - done.
  - intros Hs. by destruct s.
Qed.

Lemma comma_to_point_clean_witness :
  comma_to_point (lit "6 543,21") = lit "6543.21" /\
  comma_to_point (lit "7.5") = lit "7.5".
Proof.
  destruct (comma_to_point_clean (fun _ => None) (lit "7.5")) as (_ & _ & H & _).
  split; [by vm_compute|]. apply H; [by vm_compute|].
  intros c Hc. vm_compute in Hc.
  repeat (apply elem_of_cons in Hc as [->|Hc]; [by vm_compute|]).
  by apply elem_of_nil in Hc.
Defined.
